(** * Puppet (src/puppet.js): credential association, session start and
      event routing of the matrix puppet bridge.

    The development follows the source file top-down:
    - [JsString]   strings as sequences of UTF-16 code units, and the
                   regular expression of [Puppet.parseMxid];
    - [Registry]   the fields of a [Puppet] object and the two listeners
                   installed by [startClient] ("RoomState.members" and
                   "Room.receipt"), with [getMatrixRoomMembers];
    - [Session]    the readiness wait at the end of [startClient];
    - [Associate]  [Puppet.associate] as a program over the effects it
                   performs (prompts, discovery, login, file output). *)

From Stdlib Require Import String Ascii NArith.
From stdpp Require Import base option list gmap.

Local Open Scope N_scope.

(** ** Strings *)

(** A JavaScript string is a sequence of 16-bit code units; the regular
    expression below has no [u] flag, so it works on code units. *)
Abbreviation jsstring := (list N).

Module JsString.

Definition str (s : string) : jsstring :=
  (fun a => N_of_ascii a) <$> list_ascii_of_string s.

Definition colon : N := 58.

(** The code units that [.] does not match (no [s] flag):
    LF, CR, U+2028 and U+2029. *)
Definition isLineTerminator (c : N) : bool :=
  (c =? 10) || (c =? 13) || (c =? 8232) || (c =? 8233).

(** The first group, a lazy dot-star, followed by the continuation [k]:
    a lazy quantifier first tries the rest of the pattern with what it
    holds, and takes one more character only when that fails. *)
Fixpoint lazyDotStar {R} (k : jsstring -> jsstring -> option R)
    (taken rest : jsstring) : option R :=
  match k taken rest with
  | Some r => Some r
  | None =>
      match rest with
      | c :: rest' =>
          if isLineTerminator c then None
          else lazyDotStar k (taken ++ [c]) rest'
      | [] => None
      end
  end.

(** The second group, a greedy dot-star, followed by the continuation
    [k]: a greedy quantifier takes as many characters as it can and
    gives them back one at a time. *)
Fixpoint greedyDotStar {R} (k : jsstring -> jsstring -> option R)
    (taken rest : jsstring) : option R :=
  match rest with
  | c :: rest' =>
      if isLineTerminator c then k taken rest
      else match greedyDotStar k (taken ++ [c]) rest' with
           | Some r => Some r
           | None => k taken rest
           end
  | [] => k taken rest
  end.

(** [$] without the [m] flag: end of input only. *)
Definition atEnd {R} (r : R) (rest : jsstring) : option R :=
  match rest with
  | [] => Some r
  | _ :: _ => None
  end.

(** What follows the lazy group: a colon, then the greedy group, then
    the end anchor. *)
Definition afterLocalpart (g1 rest : jsstring) : option (jsstring * jsstring) :=
  match rest with
  | c :: rest' =>
      if c =? colon
      then greedyDotStar (fun g2 rest'' => atEnd (g1, g2) rest'') [] rest'
      else None
  | [] => None
  end.

(** The [exec] of the pattern of [parseMxid] (start anchor, lazy group,
    a colon, greedy group, end anchor) on [userId]: the two capture
    groups, or [None] for [null].  The start anchor without the [m]
    flag holds at index 0 only, so the match is attempted from the
    start of the input and nowhere else. *)
Definition mxidRegexExec (userId : jsstring) : option (jsstring * jsstring) :=
  lazyDotStar afterLocalpart [] userId.

Definition hasLineTerminator (s : jsstring) : Prop :=
  Exists (fun c => isLineTerminator c = true) s.
Definition noLineTerminator (s : jsstring) : Prop :=
  Forall (fun c => isLineTerminator c = false) s.

End JsString.

(** ** Thrown values *)

Inductive exn :=
| Error (message : string)          (* [new Error(message)] *)
| TypeError (message : string)      (* raised by the runtime *)
| Thrown (value : jsstring).        (* any other thrown value or rejection reason *)

#[global] Instance exn_eq_dec : EqDecision exn.
Proof. solve_decision. Defined.

(** ** parseMxid *)

Record Mxid := { localpart : jsstring; domain : jsstring }.

Definition parseMxid (userId : jsstring) : exn + Mxid :=
  match JsString.mxidRegexExec userId with
  | Some (m1, m2) => inr {| localpart := m1; domain := m2 |}
  | None => inl (Error "Invalid MXID")
  end.

(** ** The bridge config *)

(** [{ puppet: { id, token }, bridge: { homeserverUrl, ... }, ... }];
    an absent member ([undefined]) is [None].  The members named by
    [Puppet.configSchemaProperties] are strings. *)
Module Config.

Record Puppet := { id : option jsstring; token : option jsstring }.

Record Bridge := {
  homeserverUrl : option jsstring;
  bridgeOthers : list (jsstring * jsstring)   (* domain, registrationPath, ... *)
}.

Record t := {
  puppet : option Puppet;
  bridge : option Bridge;
  others : list (jsstring * jsstring)          (* every other top-level key *)
}.

#[global] Instance Puppet_eq_dec : EqDecision Puppet.
Proof. solve_decision. Defined.
#[global] Instance Bridge_eq_dec : EqDecision Bridge.
Proof. solve_decision. Defined.
#[global] Instance t_eq_dec : EqDecision t.
Proof. solve_decision. Defined.

End Config.

(** ** The Puppet object and its listeners *)

Module Registry.

(** The bridging application, known to the puppet only as a reference. *)
Definition App := nat.

(** Arguments of [matrixSdk.createClient]. *)
Record Client := {
  baseUrl : option jsstring;
  userId : option jsstring;
  accessToken : option jsstring
}.

(** Fields of [this].  [matrixRoomMembers] is not assigned by the
    constructor: it is [undefined] ([None]) until [startClient] runs.
    The two objects used as maps are keyed by Matrix room identifiers,
    which begin with "!" and so never name a property inherited from
    [Object.prototype]: on such keys they are finite maps, and that is
    what this module has.  [Plain], further down, has the two objects
    for every string, with what they inherit. *)
Record Puppet := {
  id : option jsstring;
  client : option Client;
  thirdPartyRooms : gmap jsstring jsstring;
  app : option App;
  matrixRoomMembers : option (gmap jsstring (list jsstring))
}.

(** [new Puppet(args)], the config holder apart (see [Associate]). *)
Definition constructor : Puppet :=
  {| id := None; client := None; thirdPartyRooms := ∅; app := None;
     matrixRoomMembers := None |}.

Definition setApp (a : option App) (p : Puppet) : Puppet :=
  {| id := id p; client := client p; thirdPartyRooms := thirdPartyRooms p;
     app := a; matrixRoomMembers := matrixRoomMembers p |}.

Definition saveThirdPartyRoomId (matrixRoomId thirdPartyRoomId : jsstring)
    (p : Puppet) : Puppet :=
  {| id := id p; client := client p;
     thirdPartyRooms := <[matrixRoomId := thirdPartyRoomId]> (thirdPartyRooms p);
     app := app p; matrixRoomMembers := matrixRoomMembers p |}.

Definition getClient (p : Puppet) : option Client := client p.

(** [this.matrixRoomMembers[roomId] || []]: reading a member of
    [undefined] throws; a stored array is truthy even when empty. *)
Definition getMatrixRoomMembers (p : Puppet) (roomId : jsstring)
    : exn + list jsstring :=
  match matrixRoomMembers p with
  | None => inl (TypeError "Cannot read properties of undefined")
  | Some m =>
      match m !! roomId with
      | Some members => inr members
      | None => inr []
      end
  end.

(** The part of [startClient] before the listeners are installed
    (lines 109-117); [config] is the value of [await this.getConfig()].
    Reading [config.puppet.id] or [config.bridge.homeserverUrl] throws
    when the section is missing; what is assigned by then is in
    [Plain.startClientSetup]. *)
Definition startClientSetup (config : Config.t) (p : Puppet) : exn + Puppet :=
  match Config.puppet config, Config.bridge config with
  | Some ps, Some bs =>
      inr {| id := Config.id ps;
             client := Some {| baseUrl := Config.homeserverUrl bs;
                               userId := Config.id ps;
                               accessToken := Config.token ps |};
             thirdPartyRooms := thirdPartyRooms p;
             app := app p;
             matrixRoomMembers := Some ∅ |}
  | _, _ => inl (TypeError "Cannot read properties of undefined")
  end.

(** *** "RoomState.members" *)

(** The [state] argument: [state.members] is an object keyed by user
    identifier, given here in its property order. *)
Record RoomState (Member : Type) := {
  roomId : jsstring;
  members : list (jsstring * Member)
}.
Arguments roomId {Member}.
Arguments members {Member}.

#[global] Instance RoomState_eq_dec `{EqDecision Member} :
  EqDecision (RoomState Member).
Proof. solve_decision. Defined.

Definition Object_keys {V} (o : list (jsstring * V)) : list jsstring := o.*1.

Definition onRoomStateMembers {Member} (state : RoomState Member) (p : Puppet)
    : exn + Puppet :=
  match matrixRoomMembers p with
  | None => inl (TypeError "Cannot set properties of undefined")
  | Some m =>
      inr {| id := id p; client := client p;
             thirdPartyRooms := thirdPartyRooms p; app := app p;
             matrixRoomMembers :=
               Some (<[roomId state := Object_keys (members state)]> m) |}
  end.

(** *** "Room.receipt" *)

(** [event.getContent()]: event identifier, then receipt kind, then
    acknowledging user, in property order.  Only the ["m.read"] kind is
    looked at; it may be missing, and a [for-in] over [undefined] runs
    no iteration. *)
Record Receipts := { m_read : option (list (jsstring * N)) }.
Abbreviation ReceiptContent := (list (jsstring * Receipts)).

#[global] Instance Receipts_eq_dec : EqDecision Receipts.
Proof. solve_decision. Defined.

Inductive AppCall :=
| sendReadReceiptAsPuppetToThirdPartyRoomWithId
    (callee : App) (thirdPartyRoomId : option jsstring).

#[global] Instance AppCall_eq_dec : EqDecision AppCall.
Proof. solve_decision. Defined.

(** How a loop ended: it ran to its end, or the listener returned from
    inside it. *)
Inductive completion := Completed | Returned.

(** The inner loop, [for (var userId in content[eventId]['m.read'])],
    adding to the calls made so far. *)
Fixpoint forUserIds (p : Puppet) (a : App) (room : jsstring)
    (readers : list (jsstring * N)) (calls : list AppCall)
    : completion * list AppCall :=
  match readers with
  | [] => (Completed, calls)
  | (userId, _) :: readers' =>
      if decide (Some userId = id p)
      then (Returned,
            calls ++ [sendReadReceiptAsPuppetToThirdPartyRoomWithId a
                        (thirdPartyRooms p !! room)])
      else forUserIds p a room readers' calls
  end.

(** The outer loop, [for (var eventId in content)]. *)
Fixpoint forEventIds (p : Puppet) (a : App) (room : jsstring)
    (content : ReceiptContent) (calls : list AppCall)
    : completion * list AppCall :=
  match content with
  | [] => (Completed, calls)
  | (eventId, receipts) :: content' =>
      match forUserIds p a room (default [] (m_read receipts)) calls with
      | (Returned, calls') => (Returned, calls')
      | (Completed, calls') => forEventIds p a room content' calls'
      end
  end.

(** Whether [user] is among the "m.read" acknowledgers of some entry
    of [content]. *)
Definition acknowledgedIn (user : option jsstring) (readers : list (jsstring * N))
    : bool :=
  existsb (fun r => bool_decide (Some r.1 = user)) readers.
Definition acknowledgedBy (user : option jsstring) (content : ReceiptContent)
    : bool :=
  existsb (fun e => acknowledgedIn user (default [] (m_read e.2))) content.

(** The listener: the calls it makes on the application, in order. *)
Definition onRoomReceipt (content : ReceiptContent) (room : jsstring)
    (p : Puppet) : list AppCall :=
  match app p with
  | None => []
  | Some a =>
      if decide (is_Some (thirdPartyRooms p !! room))
      then (forEventIds p a room content []).2
      else []
  end.

End Registry.

(** ** Session start: the listeners at work and the readiness wait *)

Module Session.
Import Registry.

(** What can happen on the single thread while [startClient] is
    suspended: the client emits an event to its listeners, or the
    application calls one of the puppet's public setters. *)
Inductive Turn :=
| RoomState_members (state : RoomState unit)
| Room_receipt (content : ReceiptContent) (room : jsstring)
| sync (state : string)
| callSetApp (a : option App)
| callSaveThirdPartyRoomId (matrixRoomId thirdPartyRoomId : jsstring).

#[global] Instance Turn_eq_dec : EqDecision Turn.
Proof. solve_decision. Defined.

(** The puppet, the local [isSynced] of [startClient], and the calls
    received by the application so far. *)
Record Listening := {
  puppet : Puppet;
  isSynced : bool;
  calls : list AppCall
}.

(** One turn.  An exception thrown by a listener reaches the emitter
    and leaves the puppet as it was. *)
Definition dispatch (s : Listening) (t : Turn) : Listening :=
  match t with
  | RoomState_members state =>
      match onRoomStateMembers state (puppet s) with
      | inr p' => {| puppet := p'; isSynced := isSynced s; calls := calls s |}
      | inl _ => s
      end
  | Room_receipt content room =>
      {| puppet := puppet s; isSynced := isSynced s;
         calls := calls s ++ onRoomReceipt content room (puppet s) |}
  | sync state =>
      if decide (state = "PREPARED"%string)
      then {| puppet := puppet s; isSynced := true; calls := calls s |}
      else s
  | callSetApp a =>
      {| puppet := setApp a (puppet s); isSynced := isSynced s; calls := calls s |}
  | callSaveThirdPartyRoomId r t' =>
      {| puppet := saveThirdPartyRoomId r t' (puppet s);
         isSynced := isSynced s; calls := calls s |}
  end.

Definition listen (s : Listening) (turns : list Turn) : Listening :=
  foldl dispatch s turns.

(** Modelled from the spec: [utils.until] (src/utils.js is not among
    the sources).  "Suspend the caller (cooperative polling, not
    busy-loop blocking of other work) until a sync-state transition
    reports the ready state; return control only then": the condition
    is polled, and while it holds the caller yields to whatever the
    thread does before the next poll.  [schedule] lists those batches
    of turns; the result is the state at the poll that ends the wait
    with the batches not yet run, or [None] when the caller is still
    suspended at the end of the schedule. *)
Fixpoint until {S T} (condition : S -> bool) (yield : S -> T -> S)
    (s : S) (schedule : list T) : option (S * list T) :=
  if condition s then
    match schedule with
    | [] => None
    | batch :: schedule' => until condition yield (yield s batch) schedule'
    end
  else Some (s, schedule).

(** [startClient], with [config] the value of [await this.getConfig()]:
    the setup, the three listeners ([dispatch]), and
    [await utils.until(() => !isSynced)]. *)
Definition startClient (config : Config.t) (p : Puppet)
    (schedule : list (list Turn)) : exn + option (Listening * list (list Turn)) :=
  match startClientSetup config p with
  | inl e => inl e
  | inr p' =>
      inr (until (fun s => negb (isSynced s)) listen
             {| puppet := p'; isSynced := false; calls := [] |} schedule)
  end.

End Session.

(** ** associate *)

Module Associate.
Import JsString.

(** [this.config]: [data] is [undefined] until the file has been read
    (or is handed to the constructor). *)
Record ConfigHolder := {
  data : option Config.t;
  path : option jsstring;
  format : option string
}.

(** [args] of [associate]. *)
Record Registration := { getSenderLocalpart : jsstring }.
Record Args := {
  detectConfigPath : bool;
  registration : option Registration
}.

(** [clientConfig["m.homeserver"]] of [AutoDiscovery.findClientConfig]. *)
Record HomeserverDiscovery := {
  state : string;
  error : jsstring;
  base_url : jsstring
}.

(** The response of [client.login]; [well_known], when defined, is read
    at its ["m.homeserver"] member, which the code takes for the
    homeserver URL as it comes. *)
Record WellKnown := { m_homeserver : jsstring }.
Record LoginResponse := {
  access_token : jsstring;
  user_id : option jsstring;
  well_known : option WellKnown
}.

(** The destructured result of lines 229-248. *)
Record Credentials := {
  homeserverUrl : jsstring;
  id : jsstring;
  token : jsstring
}.

(** Texts written to the log or the terminal. *)
Inductive message :=
| Banner                                  (* the rationale of puppeting *)
| SearchingForHomeserver (domain : jsstring)
| FoundHomeserver (base_url : jsstring)
| EnterUserId
| EnterHomeserverUrl
| EnterPassword (userId : jsstring)
| LoginSuccess
| UpdatedConfigFile (configPath : jsstring)
| PleaseUpdate.

(** What [associate] asks of the outside. *)
Inductive action :=
| info (m : message)
| warn (m : message)
| console_error (m : message)
| console_log (puppetConfig : Config.t)              (* as YAML *)
| read (silent : bool)
| loadConfig (path : option jsstring) (format : option string)
    (* readFile, then the parser chosen by format, then [.puppet] *)
| findClientConfig (domain : jsstring)
| login (baseUrl user password : jsstring)
    (initial_device_display_name : option jsstring)
| argvConfigPath                                     (* Puppet.detectConfigPath() *)
| writeFile (configPath : jsstring) (format : option string)
    (newConfig : Config.t).

Definition response (a : action) : Type :=
  match a with
  | info _ | warn _ | console_error _ | console_log _ => unit
  | read _ => exn + jsstring
  | loadConfig _ _ => exn + Config.t
  | findClientConfig _ => exn + HomeserverDiscovery
  | login _ _ _ _ => exn + LoginResponse
  | argvConfigPath => option jsstring
  | writeFile _ _ _ => exn + unit
  end.

#[global] Instance message_eq_dec : EqDecision message.
Proof. solve_decision. Defined.
#[global] Instance action_eq_dec : EqDecision action.
Proof. solve_decision. Defined.

(** Programs: a result, a thrown value, or an action and what follows
    its response. *)
Inductive prog (A : Type) : Type :=
| Ret (a : A)
| Throw (e : exn)
| Vis (a : action) (k : response a -> prog A).
Arguments Ret {A}.
Arguments Throw {A}.
Arguments Vis {A}.

Fixpoint bind {A B} (f : A -> prog B) (p : prog A) : prog B :=
  match p with
  | Ret a => f a
  | Throw e => Throw e
  | Vis a k => Vis a (fun r => bind f (k r))
  end.

#[global] Instance prog_ret : MRet prog := @Ret.
#[global] Instance prog_bind : MBind prog := @bind.

(** [await] of a promise: a rejection is thrown. *)
Definition settle {R} (r : exn + R) : prog R :=
  match r with
  | inl e => Throw e
  | inr v => Ret v
  end.

Definition getConfig (this : ConfigHolder) : prog (Config.t * ConfigHolder) :=
  match data this with
  | Some d => mret (d, this)
  | None =>
      d ← Vis (loadConfig (path this) (format this)) settle;
      mret (d, {| data := Some d; path := path this; format := format this |})
  end.

Section Resolve.
(** [new URL(input)] turned into a string: the serialized URL, or
    [None] when the constructor throws. *)
Variable parseURL : jsstring -> option jsstring.

Variable config : Config.t.
Variable reg : option Registration.

(** Lines 194-198. *)
Definition promptUserId : prog jsstring :=
  Vis (console_error EnterUserId) (fun _ => Vis (read false) settle).

Definition resolveUserId : prog jsstring :=
  match Config.puppet config with
  | Some ps =>
      match Config.id ps with
      | Some i => mret i
      | None => promptUserId
      end
  | None => promptUserId
  end.

(** Lines 202-211. *)
Definition findHome (domain : jsstring) : prog jsstring :=
  Vis (info (SearchingForHomeserver domain)) (fun _ =>
  hs ← Vis (findClientConfig domain) settle;
  if decide (state hs = "SUCCESS"%string)
  then Vis (info (FoundHomeserver (base_url hs))) (fun _ => mret (base_url hs))
  else Throw (Thrown (error hs))).

(** Lines 200-227.  [findHome] is an async function whose promise is
    returned from inside the [try] without being awaited there: the
    handler sees what [parseMxid] throws, not a failed discovery. *)
Definition discoverHomeserver (userId : jsstring) : prog jsstring :=
  match parseMxid userId with
  | inr m => findHome (domain m)
  | inl _ =>
      Vis (console_error EnterHomeserverUrl) (fun _ =>
      homeserver ← Vis (read false) settle;
      match parseURL homeserver with
      | Some href => mret href
      | None => findHome homeserver
      end)
  end.

Definition resolveHomeserver (userId : jsstring) : prog jsstring :=
  match Config.bridge config with
  | Some bs =>
      match Config.homeserverUrl bs with
      | Some h => mret h
      | None => discoverHomeserver userId
      end
  | None => discoverHomeserver userId
  end.

(** [a || b] on a string that may be undefined: the empty string is
    falsy. *)
Definition orElse (a : option jsstring) (b : jsstring) : jsstring :=
  match a with
  | Some (c :: a') => c :: a'
  | Some [] | None => b
  end.

(** Lines 233-248. *)
Definition passwordLogin (homeserver userId : jsstring) : prog Credentials :=
  Vis (console_error (EnterPassword userId)) (fun _ =>
  password ← Vis (read true) settle;
  accessDat ← Vis (login homeserver userId password
                     (getSenderLocalpart <$> reg)) settle;
  Vis (info LoginSuccess) (fun _ =>
  mret {| token := access_token accessDat;
          id := orElse (user_id accessDat) userId;
          homeserverUrl :=
            match well_known accessDat with
            | Some wk => m_homeserver wk
            | None => homeserver
            end |})).

(** Lines 229-248. *)
Definition resolveToken (homeserver userId : jsstring) : prog Credentials :=
  match Config.puppet config with
  | Some ps =>
      match Config.token ps with
      | Some t => mret {| homeserverUrl := homeserver; id := userId; token := t |}
      | None => passwordLogin homeserver userId
      end
  | None => passwordLogin homeserver userId
  end.

(** Lines 194-248: the local [homeserver] and the destructured
    [{ homeserverUrl, id, token }]. *)
Definition resolve : prog (jsstring * Credentials) :=
  userId ← resolveUserId;
  homeserver ← resolveHomeserver userId;
  creds ← resolveToken homeserver userId;
  mret (homeserver, creds).

(** The condition of line 250. *)
Definition differs (id token homeserver : jsstring) : bool :=
  match Config.puppet config, Config.bridge config with
  | Some ps, Some bs =>
      negb (bool_decide (Config.id ps = Some id))
      || negb (bool_decide (Config.token ps = Some token))
      || negb (bool_decide (Config.homeserverUrl bs = Some homeserver))
  | _, _ => true
  end.

(** Lines 251-259: the object literal [puppetConfig]. *)
Definition puppetConfig (id token homeserver : jsstring) : Config.t :=
  {| Config.puppet := Some {| Config.id := Some id; Config.token := Some token |};
     Config.bridge := Some {| Config.homeserverUrl := Some homeserver;
                              Config.bridgeOthers := [] |};
     Config.others := [] |}.

(** [Object.assign(config, source)] for a [source] whose own keys are
    [puppet] and [bridge]: both members are replaced, the other
    top-level keys stay. *)
Definition Object_assign (source : Config.t) : Config.t :=
  {| Config.puppet := Config.puppet source;
     Config.bridge := Config.bridge source;
     Config.others := Config.others config |}.

(** Lines 250-277.  [config] is the object held in [this.config.data],
    which [Object.assign] changes in place: the holder returned is
    [this] afterwards.  What [this] is when the write throws is in
    [InPlace.persist]. *)
Definition persist (this : ConfigHolder) (args_ : Args)
    (homeserver : jsstring) (creds : Credentials) : prog ConfigHolder :=
  if differs (id creds) (token creds) homeserver then
    let pc := puppetConfig (id creds) (token creds) homeserver in
    let newConfig := Object_assign pc in
    let this' := {| data := Some newConfig; path := path this;
                    format := format this |} in
    configPath ←
      match path this with
      | Some p => mret (Some p)
      | None =>
          if detectConfigPath args_ then Vis argvConfigPath Ret
          else mret None
      end;
    match configPath with
    | Some cp =>
        Vis (writeFile cp (format this) newConfig) (fun r =>
        settle r ≫= fun _ =>
        Vis (info (UpdatedConfigFile cp)) (fun _ => mret this'))
    | None =>
        Vis (warn PleaseUpdate) (fun _ =>
        Vis (console_log pc) (fun _ => mret this'))
    end
  else mret this.

End Resolve.

(** [associate(args)]; its result is [this.config] when it completes. *)
Definition associate (parseURL : jsstring -> option jsstring)
    (this : ConfigHolder) (args : option Args) : prog ConfigHolder :=
  Vis (info Banner) (fun _ =>
  let args_ := default {| detectConfigPath := false; registration := None |} args in
  let reg := registration args_ in
  '(config, this) ← getConfig this;
  '(homeserver, creds) ← resolve parseURL config reg;
  persist config this args_ homeserver creds).

(** *** Running a program *)

(** The collaborators: the operator's lines are consumed one per
    prompt, the others answer by their arguments. *)
Record World := {
  configFile : option jsstring -> option string -> exn + Config.t;
  discovery : jsstring -> exn + HomeserverDiscovery;
  homeserverLogin : jsstring -> jsstring -> jsstring -> option jsstring
                    -> exn + LoginResponse;
  argv : option jsstring;
  fileSystem : jsstring -> exn + unit
}.

Definition answer (w : World) (typed : list jsstring) (a : action)
    : response a * list jsstring :=
  match a return response a * list jsstring with
  | info _ => (tt, typed)
  | warn _ => (tt, typed)
  | console_error _ => (tt, typed)
  | console_log _ => (tt, typed)
  | read _ =>
      match typed with
      | line :: typed' => (inr line, typed')
      | [] => (inl (Thrown (str "canceled")), [])
      end
  | loadConfig p f => (configFile w p f, typed)
  | findClientConfig d => (discovery w d, typed)
  | login b u pw n => (homeserverLogin w b u pw n, typed)
  | argvConfigPath => (argv w, typed)
  | writeFile p _ _ => (fileSystem w p, typed)
  end.

(** The outcome of a run: the actions performed in order, the lines
    left to the operator, and the result or the thrown value. *)
Record Outcome (A : Type) := {
  trace : list action;
  unread : list jsstring;
  result : exn + A
}.
Arguments trace {A}.
Arguments unread {A}.
Arguments result {A}.

Fixpoint run {A} (w : World) (p : prog A) (typed : list jsstring) : Outcome A :=
  match p with
  | Ret a => {| trace := []; unread := typed; result := inr a |}
  | Throw e => {| trace := []; unread := typed; result := inl e |}
  | Vis a k =>
      let '(r, typed') := answer w typed a in
      let o := run w (k r) typed' in
      {| trace := a :: trace o; unread := unread o; result := result o |}
  end.

Definition isPrompt (a : action) : bool :=
  match a with read _ => true | _ => false end.
Definition isDiscovery (a : action) : bool :=
  match a with findClientConfig _ => true | _ => false end.
Definition isLogin (a : action) : bool :=
  match a with login _ _ _ _ => true | _ => false end.
Definition isConfigOutput (a : action) : bool :=
  match a with writeFile _ _ _ | console_log _ => true | _ => false end.

(** Neither a prompt, nor a discovery query, nor a login, nor an
    update of the config. *)
Definition quiet (a : action) : Prop :=
  isPrompt a = false /\ isDiscovery a = false /\ isLogin a = false
  /\ isConfigOutput a = false.

End Associate.

(** ** Sample values *)

Module Sample.
Import JsString.

Definition me : jsstring := str "@a:b.com".
Definition room : jsstring := str "!R:b.com".
Definition external : jsstring := str "chat-42".

(** A puppet after [startClient], with an application attached and
    [room] bound. *)
Definition armed : Registry.Puppet :=
  {| Registry.id := Some me; Registry.client := None;
     Registry.thirdPartyRooms := {[ room := external ]};
     Registry.app := Some 1%nat;
     Registry.matrixRoomMembers := Some ∅ |}.

(** The same with no application attached. *)
Definition unarmed : Registry.Puppet := Registry.setApp None armed.

(** A receipt in which the puppet acknowledges two events. *)
Definition readTwice : Registry.ReceiptContent :=
  [ (str "$e1", {| Registry.m_read := Some [(str "@other:b.com", 1); (me, 2)] |});
    (str "$e2", {| Registry.m_read := Some [(me, 3)] |}) ].

Definition membersXY : Registry.RoomState unit :=
  {| Registry.roomId := room;
     Registry.members := [(str "@x:b.com", tt); (str "@y:b.com", tt)] |}.
Definition membersX : Registry.RoomState unit :=
  {| Registry.roomId := room; Registry.members := [(str "@x:b.com", tt)] |}.

(** A config with every credential present. *)
Definition fullConfig : Config.t :=
  {| Config.puppet := Some {| Config.id := Some me; Config.token := Some (str "tok") |};
     Config.bridge := Some {| Config.homeserverUrl := Some (str "https://b.com");
                              Config.bridgeOthers := [(str "domain", str "b.com")] |};
     Config.others := [(str "port", str "8090")] |}.

(** A puppet whose application attached itself and bound [room] before
    [startClient] is called. *)
Definition attached : Registry.Puppet :=
  Registry.saveThirdPartyRoomId room external
    (Registry.setApp (Some 1%nat) Registry.constructor).




(** A stand-in for the URL parser: it accepts what starts with "http"
    and returns it unchanged. *)
Definition parseURL (input : jsstring) : option jsstring :=
  match input with
  | 104 :: 116 :: 116 :: 112 :: _ => Some input
  | _ => None
  end.

(** A world in which discovery knows the domain b.com, every login
    succeeds and the server advertises another homeserver, and the
    config file can be written. *)
Definition world : Associate.World :=
  {| Associate.configFile := fun _ _ => inl (Thrown (str "ENOENT"));
     Associate.discovery := fun d =>
       if decide (d = str "b.com")
       then inr {| Associate.state := "SUCCESS"; Associate.error := [];
                   Associate.base_url := str "https://hs.b.com" |}
       else inr {| Associate.state := "FAIL_PROMPT";
                   Associate.error := str "Invalid homeserver discovery response";
                   Associate.base_url := [] |};
     Associate.homeserverLogin := fun _ user _ _ =>
       inr {| Associate.access_token := str "tok";
              Associate.user_id := Some user;
              Associate.well_known :=
                Some {| Associate.m_homeserver := str "https://hs.b.com" |} |};
     Associate.argv := None;
     Associate.fileSystem := fun _ => inr tt |}.

(** [{ puppet: { id }, bridge: { homeserverUrl } }]: no token yet. *)
Definition noToken : Config.t :=
  {| Config.puppet := Some {| Config.id := Some me; Config.token := None |};
     Config.bridge := Some {| Config.homeserverUrl := Some (str "https://b.com");
                              Config.bridgeOthers := [] |};
     Config.others := [] |}.

(** [{ puppet: { id, token } }]: the homeserver is to be discovered. *)
Definition noHomeserver : Config.t :=
  {| Config.puppet := Some {| Config.id := Some me; Config.token := Some (str "tok") |};
     Config.bridge := None;
     Config.others := [] |}.



Definition holder (config : Config.t) : Associate.ConfigHolder :=
  {| Associate.data := Some config;
     Associate.path := Some (str "config.yaml");
     Associate.format := Some "yaml"%string |}.

End Sample.

(** ** Construction *)

Module Construction.

(** The argument of [new Puppet(args)]: a path (the legacy form), or
    options whose members may each be undefined. *)
Inductive Args :=
| legacy (path : jsstring)
| options (config : option Config.t) (configPath : option jsstring)
    (configFormat : option string).

(** [this.config] as the constructor leaves it (lines 30-42). *)
Definition config (args : Args) : Associate.ConfigHolder :=
  match args with
  | legacy path =>
      {| Associate.data := None; Associate.path := Some path;
         Associate.format := Some "json"%string |}
  | options c configPath configFormat =>
      {| Associate.data := c; Associate.path := configPath;
         Associate.format := configFormat |}
  end.

End Construction.

(** ** Counting the actions of a run *)

Module Traces.

Definition occurrences (f : Associate.action -> bool) (tr : list Associate.action)
    : nat :=
  length (List.filter f tr).

(** The masked prompt, [read({ silent: true, replace: '*' })]. *)
Definition isMaskedPrompt (a : Associate.action) : bool :=
  match a with Associate.read true => true | _ => false end.

Definition isWrite (a : Associate.action) : bool :=
  match a with Associate.writeFile _ _ _ => true | _ => false end.

Definition isArgvLookup (a : Associate.action) : bool :=
  match a with Associate.argvConfigPath => true | _ => false end.

Definition isLoad (a : Associate.action) : bool :=
  match a with Associate.loadConfig _ _ => true | _ => false end.

Definition isReceipt (t : Session.Turn) : bool :=
  match t with Session.Room_receipt _ _ => true | _ => false end.

End Traces.

(** ** The two maps as the plain objects they are *)

(** [this.thirdPartyRooms] and [this.matrixRoomMembers] are object
    literals: a name that is not an own key is looked up on the
    prototype, the [in] operator sees inherited names too, and an
    assignment at ["__proto__"] goes to the accessor of
    [Object.prototype] instead of making an own key.  [Registry] has
    the two objects as finite maps of their own keys, which is what they
    are on room identifiers that name no inherited property; this module
    has them for every string. *)
Module Plain.
Import JsString.

(** The values a lookup in one of the two objects can give. *)
Inductive value :=
| Undefined
| Str (s : jsstring)
| Num (n : N)
| Arr (members : list jsstring)
| Builtin (name : jsstring).   (* what the runtime has under that name *)

#[global] Instance value_eq_dec : EqDecision value.
Proof. solve_decision. Defined.

(** [v || []] takes [v] when it is truthy. *)
Definition truthy (v : value) : bool :=
  match v with
  | Undefined => false
  | Str [] => false
  | Str (_ :: _) => true
  | Num 0 => false
  | Num (N.pos _) => true
  | Arr _ => true
  | Builtin _ => true
  end.

(** What the code finds in its runtime: the names of the properties of
    [Object.prototype] (functions all, ["__proto__"] apart), and [a[key]]
    for an array [a] and a key other than ["__proto__"] (an index, the
    length, a member of the array prototypes). *)
Record Runtime := {
  objectPrototype : list jsstring;
  arrayMember : list jsstring -> jsstring -> value
}.

Definition proto : jsstring := str "__proto__".

(** Whether [key] is found on [Object.prototype]. *)
Definition inherited (rt : Runtime) (key : jsstring) : bool :=
  bool_decide (key = proto) || bool_decide (key ∈ objectPrototype rt).

(** *** this.thirdPartyRooms: own keys with string values *)

(** [key in this.thirdPartyRooms]. *)
Definition hasThirdPartyRoom (rt : Runtime) (rooms : gmap jsstring jsstring)
    (key : jsstring) : bool :=
  bool_decide (is_Some (rooms !! key)) || inherited rt key.

(** [this.thirdPartyRooms[key]]. *)
Definition thirdPartyRoom (rt : Runtime) (rooms : gmap jsstring jsstring)
    (key : jsstring) : value :=
  match rooms !! key with
  | Some ext => Str ext
  | None => if inherited rt key then Builtin key else Undefined
  end.

(** [this.thirdPartyRooms[key] = ext]: the accessor at ["__proto__"]
    ignores a string. *)
Definition setThirdPartyRoom (rooms : gmap jsstring jsstring)
    (key ext : jsstring) : gmap jsstring jsstring :=
  if decide (key = proto) then rooms else <[key := ext]> rooms.

(** *** this.matrixRoomMembers: own keys with array values, and the
    array that an assignment at ["__proto__"] has made the prototype *)

Record Members := {
  own : gmap jsstring (list jsstring);
  prototype : option (list jsstring)     (* [None]: still [Object.prototype] *)
}.

(** [this.matrixRoomMembers[key]]. *)
Definition member (rt : Runtime) (m : Members) (key : jsstring) : value :=
  match own m !! key with
  | Some a => Arr a
  | None =>
      match prototype m with
      | None => if inherited rt key then Builtin key else Undefined
      | Some a => if decide (key = proto) then Arr a else arrayMember rt a key
      end
  end.

(** [this.matrixRoomMembers[key] = a]. *)
Definition setMember (m : Members) (key : jsstring) (a : list jsstring) : Members :=
  if decide (key = proto)
  then {| own := own m; prototype := Some a |}
  else {| own := <[key := a]> (own m); prototype := prototype m |}.

(** *** The puppet *)

Record Puppet := {
  id : option jsstring;
  client : option Registry.Client;
  thirdPartyRooms : gmap jsstring jsstring;
  app : option Registry.App;
  matrixRoomMembers : option Members
}.

Definition constructor : Puppet :=
  {| id := None; client := None; thirdPartyRooms := ∅; app := None;
     matrixRoomMembers := None |}.

Definition setApp (a : option Registry.App) (p : Puppet) : Puppet :=
  {| id := id p; client := client p; thirdPartyRooms := thirdPartyRooms p;
     app := a; matrixRoomMembers := matrixRoomMembers p |}.

Definition saveThirdPartyRoomId (matrixRoomId thirdPartyRoomId : jsstring)
    (p : Puppet) : Puppet :=
  {| id := id p; client := client p;
     thirdPartyRooms :=
       setThirdPartyRoom (thirdPartyRooms p) matrixRoomId thirdPartyRoomId;
     app := app p; matrixRoomMembers := matrixRoomMembers p |}.

(** [this.matrixRoomMembers[roomId] || []]. *)
Definition getMatrixRoomMembers (rt : Runtime) (p : Puppet) (roomId : jsstring)
    : exn + value :=
  match matrixRoomMembers p with
  | None => inl (TypeError "Cannot read properties of undefined")
  | Some m =>
      let v := member rt m roomId in
      inr (if truthy v then v else Arr [])
  end.

(** Lines 109-117 with what they have done when they throw: line 109
    throws before it assigns when the [puppet] section is missing;
    [this.id] is assigned when line 111 throws on a missing [bridge]
    section. *)
Definition startClientSetup (config : Config.t) (p : Puppet) : Puppet * option exn :=
  match Config.puppet config with
  | None => (p, Some (TypeError "Cannot read properties of undefined"))
  | Some ps =>
      match Config.bridge config with
      | None =>
          ({| id := Config.id ps; client := client p;
              thirdPartyRooms := thirdPartyRooms p; app := app p;
              matrixRoomMembers := matrixRoomMembers p |},
           Some (TypeError "Cannot read properties of undefined"))
      | Some bs =>
          ({| id := Config.id ps;
              client := Some {| Registry.baseUrl := Config.homeserverUrl bs;
                                Registry.userId := Config.id ps;
                                Registry.accessToken := Config.token ps |};
              thirdPartyRooms := thirdPartyRooms p;
              app := app p;
              matrixRoomMembers := Some {| own := ∅; prototype := None |} |},
           None)
      end
  end.

(** *** The listeners *)

Definition onRoomStateMembers {Member} (state : Registry.RoomState Member)
    (p : Puppet) : exn + Puppet :=
  match matrixRoomMembers p with
  | None => inl (TypeError "Cannot set properties of undefined")
  | Some m =>
      inr {| id := id p; client := client p;
             thirdPartyRooms := thirdPartyRooms p; app := app p;
             matrixRoomMembers :=
               Some (setMember m (Registry.roomId state)
                       (Registry.Object_keys (Registry.members state))) |}
  end.

Inductive AppCall :=
| sendReadReceiptAsPuppetToThirdPartyRoomWithId
    (callee : Registry.App) (thirdPartyRoomId : value).

#[global] Instance AppCall_eq_dec : EqDecision AppCall.
Proof. solve_decision. Defined.

(** The two loops of lines 130-137, as in [Registry]; [found] is
    [this.thirdPartyRooms[room.roomId]]. *)
Fixpoint forUserIds (me : option jsstring) (a : Registry.App) (found : value)
    (readers : list (jsstring * N)) (calls : list AppCall)
    : Registry.completion * list AppCall :=
  match readers with
  | [] => (Registry.Completed, calls)
  | (userId, _) :: readers' =>
      if decide (Some userId = me)
      then (Registry.Returned,
            calls ++ [sendReadReceiptAsPuppetToThirdPartyRoomWithId a found])
      else forUserIds me a found readers' calls
  end.

Fixpoint forEventIds (me : option jsstring) (a : Registry.App) (found : value)
    (content : Registry.ReceiptContent) (calls : list AppCall)
    : Registry.completion * list AppCall :=
  match content with
  | [] => (Registry.Completed, calls)
  | (eventId, receipts) :: content' =>
      match forUserIds me a found (default [] (Registry.m_read receipts)) calls with
      | (Registry.Returned, calls') => (Registry.Returned, calls')
      | (Registry.Completed, calls') => forEventIds me a found content' calls'
      end
  end.

Definition onRoomReceipt (rt : Runtime) (content : Registry.ReceiptContent)
    (room : jsstring) (p : Puppet) : list AppCall :=
  match app p with
  | None => []
  | Some a =>
      if hasThirdPartyRoom rt (thirdPartyRooms p) room
      then (forEventIds (id p) a (thirdPartyRoom rt (thirdPartyRooms p) room)
              content []).2
      else []
  end.

(** *** The turns of a session *)

Record Listening := {
  puppet : Puppet;
  isSynced : bool;
  calls : list AppCall
}.

Definition dispatch (rt : Runtime) (s : Listening) (t : Session.Turn) : Listening :=
  match t with
  | Session.RoomState_members state =>
      match onRoomStateMembers state (puppet s) with
      | inr p' => {| puppet := p'; isSynced := isSynced s; calls := calls s |}
      | inl _ => s
      end
  | Session.Room_receipt content room =>
      {| puppet := puppet s; isSynced := isSynced s;
         calls := calls s ++ onRoomReceipt rt content room (puppet s) |}
  | Session.sync state =>
      if decide (state = "PREPARED"%string)
      then {| puppet := puppet s; isSynced := true; calls := calls s |}
      else s
  | Session.callSetApp a =>
      {| puppet := setApp a (puppet s); isSynced := isSynced s; calls := calls s |}
  | Session.callSaveThirdPartyRoomId r t' =>
      {| puppet := saveThirdPartyRoomId r t' (puppet s);
         isSynced := isSynced s; calls := calls s |}
  end.

Definition listen (rt : Runtime) (s : Listening) (turns : list Session.Turn)
    : Listening :=
  foldl (dispatch rt) s turns.

(** No assignment makes ["__proto__"] an own key. *)
Definition wellFormed (m : Members) : Prop := own m !! proto = None.

(** [a] is what the object holds for [key]: as an own key, or, for
    ["__proto__"], as the prototype. *)
Definition stores (m : Members) (key : jsstring) (a : list jsstring) : Prop :=
  if decide (key = proto) then prototype m = Some a else own m !! key = Some a.

(** *** From the finite maps to the plain objects *)

Definition ofRegistry (p : Registry.Puppet) : Puppet :=
  {| id := Registry.id p; client := Registry.client p;
     thirdPartyRooms := Registry.thirdPartyRooms p;
     app := Registry.app p;
     matrixRoomMembers :=
       (fun m => {| own := m; prototype := None |}) <$> Registry.matrixRoomMembers p |}.

Definition ofCall (c : Registry.AppCall) : AppCall :=
  match c with
  | Registry.sendReadReceiptAsPuppetToThirdPartyRoomWithId a ext =>
      sendReadReceiptAsPuppetToThirdPartyRoomWithId a
        (match ext with Some s => Str s | None => Undefined end)
  end.

(** The array index that a property name stands for, if it is one: the
    decimal digits of a number, without a leading zero. *)
Definition digit (c : N) : option N :=
  if ((48 <=? c) && (c <=? 57))%N then Some (c - 48)%N else None.

Fixpoint digits (acc : N) (s : jsstring) : option N :=
  match s with
  | [] => Some acc
  | c :: s' =>
      match digit c with
      | Some d => digits (10 * acc + d)%N s'
      | None => None
      end
  end.

Definition arrayIndex (key : jsstring) : option N :=
  match key with
  | [] => None
  | [48%N] => Some 0%N
  | 48%N :: _ => None
  | _ => digits 0 key
  end.

(** A runtime for the samples: the properties of [Object.prototype];
    an array has its elements under their indices and its length, then
    the methods of [Array.prototype], then those of [Object.prototype]. *)
Definition objectPrototypeNames : list jsstring :=
  str <$> ["constructor"; "__defineGetter__"; "__defineSetter__";
           "hasOwnProperty"; "__lookupGetter__"; "__lookupSetter__";
           "isPrototypeOf"; "propertyIsEnumerable"; "toString"; "valueOf";
           "toLocaleString"]%string.

Definition arrayPrototypeNames : list jsstring :=
  str <$> ["concat"; "copyWithin"; "fill"; "find"; "findIndex"; "lastIndexOf";
           "pop"; "push"; "reverse"; "shift"; "unshift"; "slice"; "sort";
           "splice"; "includes"; "indexOf"; "join"; "keys"; "entries";
           "values"; "forEach"; "filter"; "flat"; "flatMap"; "map"; "every";
           "some"; "reduce"; "reduceRight"]%string.

Definition runtime : Runtime :=
  {| objectPrototype := objectPrototypeNames;
     arrayMember := fun a key =>
       if decide (key = str "length") then Num (N.of_nat (length a))
       else
         match arrayIndex key ≫= (fun i => a !! N.to_nat i) with
         | Some s => Str s
         | None =>
             if bool_decide (key ∈ arrayPrototypeNames ++ objectPrototypeNames)
             then Builtin key
             else Undefined
         end |}.

End Plain.

(** ** The update of the config, with the object it changes *)

Module InPlace.
Import Associate.

(** Lines 250-277 once more, this time with [this.config] as it is when
    they end, also when they end by throwing: [Object.assign] (line 260)
    has changed the object before [writeFile] (line 265) is awaited.
    The result is the holder and the value thrown, if any. *)
Definition persist (config : Config.t) (this : ConfigHolder) (args_ : Args)
    (homeserver : jsstring) (creds : Credentials)
    : prog (ConfigHolder * option exn) :=
  if differs config (id creds) (token creds) homeserver then
    let pc := puppetConfig (id creds) (token creds) homeserver in
    let newConfig := Object_assign config pc in
    let this' := {| data := Some newConfig; path := path this;
                    format := format this |} in
    configPath ←
      match path this with
      | Some p => mret (Some p)
      | None =>
          if detectConfigPath args_ then Vis argvConfigPath Ret
          else mret None
      end;
    match configPath with
    | Some cp =>
        Vis (writeFile cp (format this) newConfig) (fun r =>
        match r with
        | inl e => mret (this', Some e)
        | inr _ => Vis (info (UpdatedConfigFile cp)) (fun _ => mret (this', None))
        end)
    | None =>
        Vis (warn PleaseUpdate) (fun _ =>
        Vis (console_log pc) (fun _ => mret (this', None)))
    end
  else mret (this, None).

(** A step of an async function together with the value it throws, if
    it throws: what the caller's [catch] would receive. *)
Fixpoint attempt {A} (p : prog A) : prog (exn + A) :=
  match p with
  | Ret a => Ret (inr a)
  | Throw e => Ret (inl e)
  | Vis a k => Vis a (fun r => attempt (k r))
  end.

(** [associate(args)] with [this.config] as it is when the call ends,
    also when it ends by throwing: [getConfig] assigns
    [this.config.data] once the file is read and parsed (lines 92, 94),
    and line 260 changes that object. *)
Definition associate (parseURL : jsstring -> option jsstring)
    (this : ConfigHolder) (args : option Args)
    : prog (ConfigHolder * option exn) :=
  Vis (info Banner) (fun _ =>
  let args_ := default {| detectConfigPath := false; registration := None |} args in
  let reg := registration args_ in
  loaded ← attempt (getConfig this);
  match loaded with
  | inl e => mret (this, Some e)
  | inr (config, this) =>
      resolved ← attempt (resolve parseURL config reg);
      match resolved with
      | inl e => mret (this, Some e)
      | inr (homeserver, creds) => persist config this args_ homeserver creds
      end
  end).

End InPlace.

(** ** Further sample values *)

Module Scenario.
Import JsString.

(** [Sample.attached] once [startClient] has set it up from
    [Sample.fullConfig]. *)
Definition started : Registry.Puppet :=
  {| Registry.id := Some Sample.me;
     Registry.client :=
       Some {| Registry.baseUrl := Some (str "https://b.com");
               Registry.userId := Some Sample.me;
               Registry.accessToken := Some (str "tok") |};
     Registry.thirdPartyRooms := {[ Sample.room := Sample.external ]};
     Registry.app := Some 1%nat;
     Registry.matrixRoomMembers := Some ∅ |}.

Definition listening (p : Registry.Puppet) : Session.Listening :=
  {| Session.puppet := p; Session.isSynced := false; Session.calls := [] |}.

(** [Sample.world] with a config file that holds [Sample.noToken]. *)
Definition onDisk : Associate.World :=
  {| Associate.configFile := fun _ _ => inr Sample.noToken;
     Associate.discovery := Associate.discovery Sample.world;
     Associate.homeserverLogin := Associate.homeserverLogin Sample.world;
     Associate.argv := None;
     Associate.fileSystem := fun _ => inr tt |}.

(** [Sample.world] with a file system that refuses every write. *)
Definition readOnly : Associate.World :=
  {| Associate.configFile := Associate.configFile Sample.world;
     Associate.discovery := Associate.discovery Sample.world;
     Associate.homeserverLogin := Associate.homeserverLogin Sample.world;
     Associate.argv := None;
     Associate.fileSystem := fun _ => inl (Thrown (str "EACCES")) |}.

(** [Sample.world] with a server that confirms another identifier and
    advertises no homeserver. *)
Definition renaming : Associate.World :=
  {| Associate.configFile := Associate.configFile Sample.world;
     Associate.discovery := Associate.discovery Sample.world;
     Associate.homeserverLogin := fun _ _ _ _ =>
       inr {| Associate.access_token := str "tok";
              Associate.user_id := Some (str "bob");
              Associate.well_known := None |};
     Associate.argv := None;
     Associate.fileSystem := fun _ => inr tt |}.

(** [{ puppet: { id } }]: neither token nor homeserver. *)
Definition idOnly : Config.t :=
  {| Config.puppet := Some {| Config.id := Some Sample.me; Config.token := None |};
     Config.bridge := None;
     Config.others := [] |}.

(** A started puppet with an application attached and nothing bound, as
    a plain object. *)
Definition unbound : Plain.Puppet :=
  {| Plain.id := Some Sample.me; Plain.client := None;
     Plain.thirdPartyRooms := ∅; Plain.app := Some 1%nat;
     Plain.matrixRoomMembers :=
       Some {| Plain.own := ∅; Plain.prototype := None |} |}.

(** [started] as a plain object. *)
Definition plainStarted : Plain.Puppet := Plain.ofRegistry started.

(** [Sample.holder Sample.noToken] once line 260 has merged the token
    "tok" into its config. *)
Definition merged : Associate.ConfigHolder :=
  {| Associate.data :=
       Some {| Config.puppet :=
                 Some {| Config.id := Some Sample.me;
                         Config.token := Some (str "tok") |};
               Config.bridge :=
                 Some {| Config.homeserverUrl := Some (str "https://b.com");
                         Config.bridgeOthers := [] |};
               Config.others := [] |};
     Associate.path := Some (str "config.yaml");
     Associate.format := Some "yaml"%string |}.

(** A world in which discovery fails for every domain. *)
Definition undiscoverable : Associate.World :=
  {| Associate.configFile := fun _ _ => inl (Thrown (str "ENOENT"));
     Associate.discovery := fun _ =>
       inr {| Associate.state := "FAIL_PROMPT";
              Associate.error := str "Invalid homeserver discovery response";
              Associate.base_url := [] |};
     Associate.homeserverLogin := Associate.homeserverLogin Sample.world;
     Associate.argv := None;
     Associate.fileSystem := fun _ => inr tt |}.

End Scenario.

(** * Properties *)

(** A closed decidable proposition, settled by evaluating its decision
    procedure. *)
Ltac decide_ground :=
  lazymatch goal with
  | |- ?P => refine (bool_decide_unpack P _); vm_compute; exact I
  end.

(** ** parseMxid *)

Section ParseMxid.
Import JsString.

Lemma colon_not_terminator : isLineTerminator colon = false.
Proof. reflexivity. Qed.

(** The end of the pattern: the greedy group followed by the end
    anchor succeeds exactly on a rest free of line terminators, and
    then holds all of it. *)
Lemma greedy_to_end_ok {R} (f : jsstring -> R) taken rest :
  noLineTerminator rest ->
  greedyDotStar (fun g2 rest' => atEnd (f g2) rest') taken rest
  = Some (f (taken ++ rest)).
Proof.
  intros Hrest. revert taken.
  induction Hrest as [|c rest Hc _ IH]; intros taken; simpl.
  - by rewrite app_nil_r.
  - rewrite Hc, IH. by rewrite <- app_assoc.
Qed.

Lemma greedy_to_end_fails {R} (f : jsstring -> R) taken rest :
  hasLineTerminator rest ->
  greedyDotStar (fun g2 rest' => atEnd (f g2) rest') taken rest = None.
Proof.
  revert taken. induction rest as [|c rest IH]; intros taken Hrest.
  - inversion Hrest.
  - simpl. destruct (isLineTerminator c) eqn:Hc; [done|].
    inversion Hrest as [? ? Hc'|? ? Hrest']; subst; [congruence|].
    by rewrite IH.
Qed.

Lemma lazy_terminator_fails taken rest :
  hasLineTerminator rest -> lazyDotStar afterLocalpart taken rest = None.
Proof.
  revert taken. induction rest as [|c rest IH]; intros taken Hrest.
  - inversion Hrest.
  - cbn [lazyDotStar].
    assert (afterLocalpart taken (c :: rest) = None) as ->.
    { unfold afterLocalpart. destruct (N.eqb_spec c colon) as [->|]; [|done].
      apply greedy_to_end_fails.
      inversion Hrest as [? ? Hc|]; subst; [|done].
      by rewrite colon_not_terminator in Hc. }
    destruct (isLineTerminator c) eqn:Hc; [done|].
    inversion Hrest; subst; [congruence|]. by apply IH.
Qed.

Lemma lazy_no_colon_fails taken rest :
  colon ∉ rest -> lazyDotStar afterLocalpart taken rest = None.
Proof.
  revert taken. induction rest as [|c rest IH]; intros taken Hrest.
  - reflexivity.
  - cbn [lazyDotStar afterLocalpart].
    apply not_elem_of_cons in Hrest as [Hc Hrest].
    destruct (N.eqb_spec c colon) as [->|]; [done|].
    destruct (isLineTerminator c); [done|]. by apply IH.
Qed.

Lemma lazy_first_colon taken l d :
  colon ∉ l -> noLineTerminator (l ++ colon :: d) ->
  lazyDotStar afterLocalpart taken (l ++ colon :: d) = Some (taken ++ l, d).
Proof.
  revert taken. induction l as [|c l IH]; intros taken Hl Hs.
  - cbn [app lazyDotStar afterLocalpart] in *. rewrite N.eqb_refl.
    inversion Hs; subst.
    rewrite (greedy_to_end_ok (fun g2 => (taken, g2))) by done.
    by rewrite app_nil_r.
  - apply not_elem_of_cons in Hl as [Hc Hl].
    inversion Hs as [|? ? Hc' Hs']; subst.
    change ((c :: l) ++ colon :: d) with (c :: (l ++ colon :: d)).
    cbn [lazyDotStar afterLocalpart].
    destruct (N.eqb_spec c colon); [done|].
    rewrite Hc', IH by done. by rewrite <- app_assoc.
Qed.

End ParseMxid.

(** C6, as the code has it: [parseMxid] splits at the first colon, into
    the part before it and everything after it (further colons
    included), every string that holds a colon and no line terminator
    (LF, CR, U+2028, U+2029); it throws "Invalid MXID" on every string
    without a colon, and also on every string that holds a line
    terminator, which the dot of the pattern does not match. *)
Theorem parseMxid_first_colon_split (s : jsstring) :
  (forall l d, s = l ++ JsString.colon :: d -> JsString.colon ∉ l ->
     JsString.noLineTerminator s ->
     parseMxid s = inr {| localpart := l; domain := d |})
  /\ (JsString.colon ∉ s -> parseMxid s = inl (Error "Invalid MXID"))
  /\ (JsString.hasLineTerminator s -> parseMxid s = inl (Error "Invalid MXID")).
Proof.
  unfold parseMxid, JsString.mxidRegexExec.
  split; [|split].
  - intros l d -> Hl Hs. by rewrite lazy_first_colon.
  - intros Hs. by rewrite lazy_no_colon_fails.
  - intros Hs. by rewrite lazy_terminator_fails.
Qed.

Lemma parseMxid_first_colon_split_witness :
  parseMxid (JsString.str "@a:b.com:8448")
    = inr {| localpart := JsString.str "@a"; domain := JsString.str "b.com:8448" |}
  /\ parseMxid (JsString.str "localhost") = inl (Error "Invalid MXID")
  /\ parseMxid [97; 58; 98; 10] = inl (Error "Invalid MXID").
Proof.
  split; [|split].
  - apply (proj1 (parseMxid_first_colon_split (JsString.str "@a:b.com:8448"))).
    + reflexivity.
    + decide_ground.
    + unfold JsString.noLineTerminator. decide_ground.
  - apply (proj1 (proj2 (parseMxid_first_colon_split (JsString.str "localhost")))).
    decide_ground.
  - apply (proj2 (proj2 (parseMxid_first_colon_split [97; 58; 98; 10]))).
    unfold JsString.hasLineTerminator. decide_ground.
Defined.

(** C6 as stated fails: "a:b" followed by a line feed holds a colon, and
    [parseMxid] throws on it. *)
Lemma parseMxid_line_feed_counterexample :
  JsString.colon ∈ [97; 58; 98; 10]
  /\ parseMxid [97; 58; 98; 10] = inl (Error "Invalid MXID").
Proof.
  split; [|reflexivity].
  decide_ground.
Qed.

(** ** The room registry and the two listeners *)

Section RegistryFacts.
Import Registry.

Lemma forUserIds_spec p a room readers calls :
  forUserIds p a room readers calls
  = if acknowledgedIn (id p) readers
    then (Returned,
          calls ++ [sendReadReceiptAsPuppetToThirdPartyRoomWithId a
                      (thirdPartyRooms p !! room)])
    else (Completed, calls).
Proof.
  induction readers as [|[u ts] readers IH]; [done|].
  cbn [forUserIds acknowledgedIn existsb fst].
  destruct (decide (Some u = id p)) as [Hu|Hu].
  - by rewrite bool_decide_eq_true_2.
  - rewrite bool_decide_eq_false_2 by done. exact IH.
Qed.

Lemma forEventIds_spec p a room content calls :
  forEventIds p a room content calls
  = if acknowledgedBy (id p) content
    then (Returned,
          calls ++ [sendReadReceiptAsPuppetToThirdPartyRoomWithId a
                      (thirdPartyRooms p !! room)])
    else (Completed, calls).
Proof.
  induction content as [|[eventId receipts] content IH]; [done|].
  cbn [forEventIds acknowledgedBy existsb snd].
  rewrite forUserIds_spec.
  destruct (acknowledgedIn (id p) (default [] (m_read receipts))); [done|].
  exact IH.
Qed.

Lemma onRoomReceipt_spec content room p :
  onRoomReceipt content room p
  = match app p, thirdPartyRooms p !! room with
    | Some a, Some ext =>
        if acknowledgedBy (id p) content
        then [sendReadReceiptAsPuppetToThirdPartyRoomWithId a (Some ext)]
        else []
    | _, _ => []
    end.
Proof.
  unfold onRoomReceipt. destruct (app p) as [a|]; [|done].
  destruct (thirdPartyRooms p !! room) as [ext|] eqn:Hroom.
  - rewrite decide_True by eauto. rewrite forEventIds_spec, Hroom.
    by destruct (acknowledgedBy (id p) content).
  - rewrite decide_False; [done|]. by intros [? ?].
Qed.


(** After [startClient] has created the map, a room without recorded
    membership has no members. *)
Lemma getMatrixRoomMembers_unknown_room p m room :
  matrixRoomMembers p = Some m -> m !! room = None ->
  getMatrixRoomMembers p room = inr [].
Proof. intros Hm Hroom. unfold getMatrixRoomMembers. by rewrite Hm, Hroom. Qed.

Lemma startClientSetup_registry config p p' :
  startClientSetup config p = inr p' -> matrixRoomMembers p' = Some ∅.
Proof.
  unfold startClientSetup.
  destruct (Config.puppet config), (Config.bridge config); intros H;
    by simplify_eq.
Qed.

End RegistryFacts.





(** The scenario of C7, evaluated: members [@x, @y] and then [@x] for
    the same room leave [@x]. *)
Example membership_scenario :
  match Registry.onRoomStateMembers Sample.membersXY Sample.armed with
  | inr p1 =>
      match Registry.onRoomStateMembers Sample.membersX p1 with
      | inr p2 => Registry.getMatrixRoomMembers p2 Sample.room
      | inl e => inl e
      end
  | inl e => inl e
  end = inr [JsString.str "@x:b.com"].
Proof. vm_compute. reflexivity. Qed.

(** C8: applying the same membership-state event twice in succession
    leaves the puppet, and with it the stored members of every room, as
    applying it once does. *)
Theorem membership_overwrite_idempotent {Member}
    (state : Registry.RoomState Member) (p : Registry.Puppet) :
  is_Some (Registry.matrixRoomMembers p) ->
  exists p1,
    Registry.onRoomStateMembers state p = inr p1
    /\ Registry.onRoomStateMembers state p1 = inr p1
    /\ Registry.getMatrixRoomMembers p1 (Registry.roomId state)
       = inr (Registry.Object_keys (Registry.members state)).
Proof.
  intros [m Hm]. unfold Registry.onRoomStateMembers. rewrite Hm.
  eexists. split; [reflexivity|]. cbn. split.
  - by rewrite insert_insert_eq.
  - unfold Registry.getMatrixRoomMembers. cbn. by rewrite lookup_insert_eq.
Qed.

Lemma membership_overwrite_idempotent_witness :
  exists p1,
    Registry.onRoomStateMembers Sample.membersXY Sample.armed = inr p1
    /\ Registry.onRoomStateMembers Sample.membersXY p1 = inr p1
    /\ Registry.getMatrixRoomMembers p1 Sample.room
       = inr [JsString.str "@x:b.com"; JsString.str "@y:b.com"].
Proof.
  apply (membership_overwrite_idempotent Sample.membersXY Sample.armed).
  eexists. reflexivity.
Defined.

(** C10, at the input where the code departs from it: on a puppet that
    has been constructed and not started, [matrixRoomMembers] is
    undefined and [getMatrixRoomMembers] throws instead of returning an
    empty list. *)
Theorem getMatrixRoomMembers_throws_before_startClient :
  Registry.getMatrixRoomMembers Registry.constructor (JsString.str "!unknown:room")
  = inl (TypeError "Cannot read properties of undefined").
Proof. reflexivity. Qed.

(** ** Session start *)

Section SessionFacts.
Import Registry Session.

Lemma listen_snoc s turns t : listen s (turns ++ [t]) = dispatch (listen s turns) t.
Proof. unfold listen. by rewrite foldl_app. Qed.

Lemma listen_batches s batches : foldl listen s batches = listen s (concat batches).
Proof.
  revert s. induction batches as [|b batches IH]; intros s; [done|].
  cbn [foldl concat]. rewrite IH. unfold listen. by rewrite foldl_app.
Qed.

(** Only the "PREPARED" sync state sets [isSynced], and nothing clears
    it. *)
Lemma dispatch_isSynced s t :
  isSynced (dispatch s t) = true <->
  isSynced s = true \/ t = sync "PREPARED".
Proof.
  destruct t as [state|content room|state|a|r e]; cbn.
  - destruct (onRoomStateMembers state (puppet s)); cbn; intuition discriminate.
  - intuition discriminate.
  - destruct (decide (state = "PREPARED"%string)) as [->|]; cbn;
      intuition congruence.
  - intuition discriminate.
  - intuition discriminate.
Qed.

Lemma listen_isSynced s turns :
  isSynced (listen s turns) = true <->
  isSynced s = true \/ sync "PREPARED" ∈ turns.
Proof.
  induction turns as [|t turns IH] using rev_ind.
  - cbn. split; [auto|]. intros [?|?%elem_of_nil]; done.
  - rewrite listen_snoc, dispatch_isSynced, IH, elem_of_app, list_elem_of_singleton.
    intuition congruence.
Qed.




Lemma until_returns {S T} (condition : S -> bool) (yield : S -> T -> S)
    s schedule :
  condition (foldl yield s schedule) = false ->
  is_Some (until condition yield s schedule).
Proof.
  revert s. induction schedule as [|batch schedule IH]; intros s; cbn.
  - intros ->. eauto.
  - intros H. destruct (condition s); [by apply IH|eauto].
Qed.

(** The wait does end: once "PREPARED" is emitted, [startClient]
    returns at the next poll. *)
Lemma startClient_returns_when_prepared config p p0 schedule :
  startClientSetup config p = inr p0 ->
  sync "PREPARED" ∈ concat schedule ->
  exists s' rest, startClient config p schedule = inr (Some (s', rest)).
Proof.
  intros Hsetup Hsync. unfold startClient. rewrite Hsetup.
  destruct (until_returns (fun s => negb (isSynced s)) listen
              {| puppet := p0; isSynced := false; calls := [] |} schedule)
    as [[s' rest] Hu].
  - rewrite listen_batches. apply negb_false_iff, listen_isSynced. by right.
  - rewrite Hu. eauto.
Qed.

End SessionFacts.




(** ** associate *)

Section AssociateFacts.
Import Associate.

Lemma run_bind {A B} w (p : prog A) (f : A -> prog B) typed :
  run w (p ≫= f) typed
  = let o := run w p typed in
    match result o with
    | inl e => {| trace := trace o; unread := unread o; result := inl e |}
    | inr a =>
        let o' := run w (f a) (unread o) in
        {| trace := trace o ++ trace o'; unread := unread o'; result := result o' |}
    end.
Proof.
  revert typed. induction p as [a|e|a k IH]; intros typed.
  - cbn. by destruct (run w (f a) typed).
  - reflexivity.
  - change (Vis a k ≫= f) with (Vis a (fun r => k r ≫= f)).
    cbn [run]. destruct (answer w typed a) as [r typed'].
    rewrite IH. cbn. by destruct (result (run w (k r) typed')).
Qed.

Lemma run_ret {A} w (a : A) typed :
  run w (mret a) typed = {| trace := []; unread := typed; result := inr a |}.
Proof. reflexivity. Qed.

(** What a successful login resolves to: the identifier confirmed by
    the server when it is present and not empty, and the homeserver
    the server advertises when it advertises one. *)
Lemma passwordLogin_prefers_server_values w reg homeserver userId password typed resp :
  homeserverLogin w homeserver userId password (getSenderLocalpart <$> reg)
    = inr resp ->
  run w (passwordLogin reg homeserver userId) (password :: typed)
  = {| trace := [console_error (EnterPassword userId); read true;
                 login homeserver userId password (getSenderLocalpart <$> reg);
                 info LoginSuccess];
       unread := typed;
       result := inr {| token := access_token resp;
                        id := orElse (user_id resp) userId;
                        homeserverUrl :=
                          match well_known resp with
                          | Some wk => m_homeserver wk
                          | None => homeserver
                          end |} |}.
Proof. intros Hresp. cbn. rewrite Hresp. reflexivity. Qed.

(** What is written or shown when the config is updated names the
    local [homeserver], whatever [creds.homeserverUrl] is. *)
Lemma persist_homeserver config this args_ homeserver creds w typed a :
  a ∈ trace (run w (persist config this args_ homeserver creds) typed) ->
  isConfigOutput a = true ->
  (exists cp f,
     a = writeFile cp f
           (Object_assign config (puppetConfig (id creds) (token creds) homeserver)))
  \/ a = console_log (puppetConfig (id creds) (token creds) homeserver).
Proof.
  unfold persist. destruct (differs _ _ _ _); [|by intros ?%elem_of_nil].
  rewrite run_bind.
  set (o := run w _ typed).
  assert (Forall (fun a => isConfigOutput a = false) (trace o)) as Ho.
  { subst o. destruct (path this); [by constructor|].
    destruct (detectConfigPath args_); cbn; repeat constructor. }
  assert (exists cp, result o = inr cp) as [cp Hcp].
  { subst o. destruct (path this); [by eexists|].
    destruct (detectConfigPath args_); cbn; by eexists. }
  cbn zeta. rewrite Hcp. cbn [trace].
  intros [Ha|Ha]%elem_of_app Hout.
  { rewrite Forall_forall in Ho. rewrite (Ho a Ha) in Hout. done. }
  destruct cp as [cp|]; cbn in Ha.
  - destruct (fileSystem w cp) as [e|[]]; cbn in Ha.
    + apply list_elem_of_singleton in Ha as ->. left. eauto.
    + apply elem_of_cons in Ha as [->|Ha]; [left; eauto|].
      apply list_elem_of_singleton in Ha as ->. done.
  - apply elem_of_cons in Ha as [->|Ha]; [done|].
    apply list_elem_of_singleton in Ha as ->. by right.
Qed.

End AssociateFacts.

(** C1, at an input where the code departs from it: the config holds
    the identifier and a homeserver but no token, the login succeeds and
    its response carries a well-known homeserver.  The destructured
    [homeserverUrl] is the advertised one, and the config that is
    written holds the local [homeserver]. *)
Theorem associate_writes_local_homeserver_despite_well_known :
  Associate.result
    (Associate.run Sample.world
       (Associate.resolve Sample.parseURL Sample.noToken None)
       [JsString.str "secret"])
  = inr (JsString.str "https://b.com",
         {| Associate.homeserverUrl := JsString.str "https://hs.b.com";
            Associate.id := Sample.me;
            Associate.token := JsString.str "tok" |})
  /\ Associate.trace
       (Associate.run Sample.world
          (Associate.associate Sample.parseURL (Sample.holder Sample.noToken) None)
          [JsString.str "secret"])
     = [ Associate.info Associate.Banner;
         Associate.console_error (Associate.EnterPassword Sample.me);
         Associate.read true;
         Associate.login (JsString.str "https://b.com") Sample.me
           (JsString.str "secret") None;
         Associate.info Associate.LoginSuccess;
         Associate.writeFile (JsString.str "config.yaml") (Some "yaml"%string)
           {| Config.puppet :=
                Some {| Config.id := Some Sample.me;
                        Config.token := Some (JsString.str "tok") |};
              Config.bridge :=
                Some {| Config.homeserverUrl := Some (JsString.str "https://b.com");
                        Config.bridgeOthers := [] |};
              Config.others := [] |};
         Associate.info (Associate.UpdatedConfigFile (JsString.str "config.yaml")) ].
Proof. split; vm_compute; reflexivity. Qed.

Section FullConfig.
Import Associate.

Lemma resolve_full_config parseURL w config reg typed pid tok hs bo :
  Config.puppet config = Some {| Config.id := Some pid; Config.token := Some tok |} ->
  Config.bridge config
    = Some {| Config.homeserverUrl := Some hs; Config.bridgeOthers := bo |} ->
  run w (resolve parseURL config reg) typed
  = {| trace := []; unread := typed;
       result := inr (hs, {| homeserverUrl := hs; id := pid; token := tok |}) |}.
Proof.
  intros Hp Hb.
  unfold resolve, resolveUserId, resolveHomeserver, resolveToken.
  rewrite Hp, Hb. reflexivity.
Qed.

Lemma persist_full_config config this args_ pid tok hs bo :
  Config.puppet config = Some {| Config.id := Some pid; Config.token := Some tok |} ->
  Config.bridge config
    = Some {| Config.homeserverUrl := Some hs; Config.bridgeOthers := bo |} ->
  persist config this args_ hs {| homeserverUrl := hs; id := pid; token := tok |}
  = mret this.
Proof.
  intros Hp Hb. unfold persist, differs. rewrite Hp, Hb. cbn.
  by rewrite !bool_decide_eq_true_2.
Qed.

Lemma getConfig_outcome w this typed config this' :
  result (run w (getConfig this) typed) = inr (config, this') ->
  run w (getConfig this) typed
  = {| trace := match data this with
                | Some _ => []
                | None => [loadConfig (path this) (format this)]
                end;
       unread := typed; result := inr (config, this') |}
  /\ data this' = Some config.
Proof.
  unfold getConfig. destruct (data this) as [d|] eqn:Hd; cbn.
  - intros [= <- <-]. done.
  - destruct (configFile w (path this) (format this)) as [e|d]; cbn; [done|].
    intros [= <- <-]. done.
Qed.

End FullConfig.

(** C2: when [puppet.id], [puppet.token] and [bridge.homeserverUrl] are
    all present in the config, the three values are resolved unchanged
    with no action at all, and [associate] as a whole does nothing but
    log its banner and get the config: no prompt, no discovery query, no
    login, and no config written or shown. *)
Theorem associate_full_config_unchanged
    (parseURL : jsstring -> option jsstring) (w : Associate.World)
    (this this' : Associate.ConfigHolder) (args : option Associate.Args)
    (reg : option Associate.Registration)
    (config : Config.t) (typed : list jsstring) (pid tok hs : jsstring)
    (bo : list (jsstring * jsstring)) :
  Config.puppet config = Some {| Config.id := Some pid; Config.token := Some tok |} ->
  Config.bridge config
    = Some {| Config.homeserverUrl := Some hs; Config.bridgeOthers := bo |} ->
  Associate.result (Associate.run w (Associate.getConfig this) typed)
    = inr (config, this') ->
  Associate.run w (Associate.resolve parseURL config reg) typed
  = {| Associate.trace := []; Associate.unread := typed;
       Associate.result :=
         inr (hs, {| Associate.homeserverUrl := hs; Associate.id := pid;
                     Associate.token := tok |}) |}
  /\ Associate.run w (Associate.associate parseURL this args) typed
     = {| Associate.trace :=
            Associate.info Associate.Banner
            :: match Associate.data this with
               | Some _ => []
               | None => [Associate.loadConfig (Associate.path this)
                            (Associate.format this)]
               end;
          Associate.unread := typed;
          Associate.result := inr this' |}
  /\ Forall Associate.quiet
       (Associate.trace (Associate.run w (Associate.associate parseURL this args) typed))
  /\ Associate.data this' = Some config.
Proof.
  intros Hp Hb Hget.
  destruct (getConfig_outcome _ _ _ _ _ Hget) as [Hrun Hdata].
  split; [by eapply resolve_full_config|].
  assert (Associate.run w (Associate.associate parseURL this args) typed
          = {| Associate.trace :=
                 Associate.info Associate.Banner
                 :: match Associate.data this with
                    | Some _ => []
                    | None => [Associate.loadConfig (Associate.path this)
                                 (Associate.format this)]
                    end;
               Associate.unread := typed;
               Associate.result := inr this' |}) as Hassoc.
  { unfold Associate.associate. cbn [Associate.run Associate.answer].
    rewrite run_bind, Hrun. cbn zeta. cbn [Associate.result Associate.unread Associate.trace].
    rewrite run_bind, (resolve_full_config _ _ _ _ _ _ _ _ _ Hp Hb).
    cbn zeta. cbn [Associate.result Associate.unread Associate.trace].
    rewrite (persist_full_config _ _ _ _ _ _ _ Hp Hb), run_ret.
    cbn. by rewrite !app_nil_r. }
  split; [exact Hassoc|]. split; [|exact Hdata].
  rewrite Hassoc. cbn. constructor; [done|].
  destruct (Associate.data this); by repeat constructor.
Qed.

Lemma associate_full_config_unchanged_witness :
  Associate.run Sample.world
    (Associate.resolve Sample.parseURL Sample.fullConfig None) []
  = {| Associate.trace := []; Associate.unread := [];
       Associate.result :=
         inr (JsString.str "https://b.com",
              {| Associate.homeserverUrl := JsString.str "https://b.com";
                 Associate.id := JsString.str "@a:b.com";
                 Associate.token := JsString.str "tok" |}) |}
  /\ Associate.run Sample.world
       (Associate.associate Sample.parseURL (Sample.holder Sample.fullConfig) None) []
     = {| Associate.trace := [Associate.info Associate.Banner];
          Associate.unread := [];
          Associate.result := inr (Sample.holder Sample.fullConfig) |}.
Proof.
  destruct (associate_full_config_unchanged Sample.parseURL Sample.world
              (Sample.holder Sample.fullConfig) (Sample.holder Sample.fullConfig)
              None None Sample.fullConfig []
              (JsString.str "@a:b.com") (JsString.str "tok")
              (JsString.str "https://b.com")
              [(JsString.str "domain", JsString.str "b.com")])
    as (Hresolve & Hassociate & _ & _).
  - reflexivity.
  - reflexivity.
  - reflexivity.
  - split; [exact Hresolve | exact Hassociate].
Defined.

Section Discovery.
Import Associate.



End Discovery.

(** What [resolve] does when the token is in the config: it resolves the
    identifier, then the homeserver, and returns both with the token. *)
Lemma resolve_with_token parseURL w config reg typed homeserver creds ps tok :
  Config.puppet config = Some ps -> Config.token ps = Some tok ->
  Associate.result (Associate.run w (Associate.resolve parseURL config reg) typed)
    = inr (homeserver, creds) ->
  exists userId,
    let o1 := Associate.run w (Associate.resolveUserId config) typed in
    let o2 := Associate.run w (Associate.resolveHomeserver parseURL config userId)
                (Associate.unread o1) in
    Associate.result o1 = inr userId
    /\ Associate.result o2 = inr homeserver
    /\ creds = {| Associate.homeserverUrl := homeserver; Associate.id := userId;
                  Associate.token := tok |}
    /\ Associate.trace (Associate.run w (Associate.resolve parseURL config reg) typed)
       = Associate.trace o1 ++ Associate.trace o2.
Proof.
  intros Hps Htok.
  unfold Associate.resolve. rewrite run_bind. cbn zeta.
  destruct (Associate.result (Associate.run w (Associate.resolveUserId config) typed))
    as [e|userId] eqn:Huser; [done|].
  rewrite run_bind. cbn zeta.
  destruct (Associate.result
              (Associate.run w (Associate.resolveHomeserver parseURL config userId) _))
    as [e|hs] eqn:Hhs; [done|].
  unfold Associate.resolveToken. rewrite Hps, Htok. cbn.
  intros [= <- <-]. exists userId. rewrite Hhs. by rewrite !app_nil_r.
Qed.



(** * Further properties *)

(** ** parseMxid, read backwards *)

(** X1: what [parseMxid] returns puts the identifier back together: the
    input is the localpart, a colon and the domain; the localpart holds
    no colon; and the input holds no line terminator. *)
Theorem parseMxid_parts_rebuild_identifier (userId : jsstring) (m : Mxid) :
  parseMxid userId = inr m ->
  userId = localpart m ++ JsString.colon :: domain m
  /\ (JsString.colon ∉ localpart m)
  /\ JsString.noLineTerminator userId.
Proof.
  intros Hm.
  destruct (decide (JsString.hasLineTerminator userId)) as [Hlt|Hlt].
  { unfold parseMxid, JsString.mxidRegexExec in Hm.
    by rewrite lazy_terminator_fails in Hm. }
  assert (JsString.noLineTerminator userId) as Hno.
  { apply not_Exists_Forall in Hlt; [|solve_decision].
    eapply Forall_impl; [exact Hlt|]. intros c Hc. cbn in Hc.
    by destruct (JsString.isLineTerminator c). }
  destruct (decide (JsString.colon ∈ userId)) as [Hcolon|Hcolon].
  - apply list_elem_of_split_l in Hcolon as (l & d & -> & Hl).
    unfold parseMxid, JsString.mxidRegexExec in Hm.
    rewrite lazy_first_colon in Hm by done. by simplify_eq.
  - unfold parseMxid, JsString.mxidRegexExec in Hm.
    by rewrite lazy_no_colon_fails in Hm.
Qed.

Lemma parseMxid_parts_rebuild_identifier_witness :
  JsString.str "@a:b.com:8448"
  = JsString.str "@a" ++ JsString.colon :: JsString.str "b.com:8448"
  /\ (JsString.colon ∉ JsString.str "@a")
  /\ JsString.noLineTerminator (JsString.str "@a:b.com:8448").
Proof.
  apply (parseMxid_parts_rebuild_identifier (JsString.str "@a:b.com:8448")
           {| localpart := JsString.str "@a"; domain := JsString.str "b.com:8448" |}).
  vm_compute. reflexivity.
Defined.

(** ** The listeners, further *)

Section ListenerFacts.
Import Registry Session.

Lemma acknowledgedIn_false user readers :
  (forall r, r ∈ readers -> Some r.1 ≠ user) -> acknowledgedIn user readers = false.
Proof.
  induction readers as [|r readers IH]; intros H; [done|].
  cbn. rewrite bool_decide_eq_false_2 by (apply H; left).
  apply IH. intros r' Hr'. apply H. by right.
Qed.

Lemma acknowledgedBy_false user content :
  (forall entry r, entry ∈ content -> r ∈ default [] (m_read entry.2) ->
     Some r.1 ≠ user) ->
  acknowledgedBy user content = false.
Proof.
  induction content as [|entry content IH]; intros H; [done|].
  cbn. rewrite acknowledgedIn_false by (intros r; apply H; left).
  apply IH. intros entry' r Hentry'. apply H. by right.
Qed.

(** What a turn leaves alone. *)
Lemma dispatch_frame s t :
  id (puppet (dispatch s t)) = id (puppet s)
  /\ client (puppet (dispatch s t)) = client (puppet s)
  /\ (forall r, is_Some (thirdPartyRooms (puppet s) !! r) ->
        is_Some (thirdPartyRooms (puppet (dispatch s t)) !! r))
  /\ ((forall r e, t ≠ callSaveThirdPartyRoomId r e) ->
      thirdPartyRooms (puppet (dispatch s t)) = thirdPartyRooms (puppet s))
  /\ ((forall a, t ≠ callSetApp a) -> app (puppet (dispatch s t)) = app (puppet s))
  /\ (is_Some (matrixRoomMembers (puppet s)) ->
      is_Some (matrixRoomMembers (puppet (dispatch s t)))).
Proof.
  destruct t as [state|content room|state|a|r e]; cbn.
  - unfold onRoomStateMembers.
    destruct (matrixRoomMembers (puppet s)) as [m|] eqn:Hm; cbn; rewrite ?Hm; eauto 10.
  - eauto 10.
  - destruct (decide _); eauto 10.
  - repeat split; eauto. intros H. by destruct (H a).
  - split; [done|]. split; [done|]. split; [|split; [|done]].
    + intros r' Hr'. destruct (decide (r = r')) as [->|].
      * rewrite lookup_insert_eq. eauto.
      * by rewrite lookup_insert_ne.
    + intros H. by destruct (H r e).
Qed.

Lemma listen_registry_defined s turns :
  is_Some (matrixRoomMembers (puppet s)) ->
  is_Some (matrixRoomMembers (puppet (listen s turns))).
Proof.
  intros Hs. induction turns as [|t turns IH] using rev_ind; [done|].
  rewrite listen_snoc. by apply dispatch_frame.
Qed.

Lemma getMatrixRoomMembers_insert p m room room' keys :
  matrixRoomMembers p = Some (<[room := keys]> m) ->
  getMatrixRoomMembers p room'
  = inr (if decide (room = room') then keys else default [] (m !! room')).
Proof.
  intros Hp. unfold getMatrixRoomMembers. rewrite Hp.
  destruct (decide (room = room')) as [->|].
  - by rewrite lookup_insert_eq.
  - rewrite lookup_insert_ne by done. by destruct (m !! room').
Qed.

(** A turn that is not a membership event for [room] does not change
    what is stored for it. *)
Lemma dispatch_other_room s t room :
  (forall state, t = RoomState_members state -> roomId state ≠ room) ->
  getMatrixRoomMembers (puppet (dispatch s t)) room
  = getMatrixRoomMembers (puppet s) room.
Proof.
  intros Ht. destruct t as [state|content r|state|a|r e]; cbn; try done.
  - unfold onRoomStateMembers.
    destruct (matrixRoomMembers (puppet s)) as [m|] eqn:Hm; [|done].
    unfold getMatrixRoomMembers. cbn. rewrite Hm.
    by rewrite lookup_insert_ne by (by apply Ht).
  - by destruct (decide _).
Qed.

Lemma listen_other_room s turns room :
  (forall state, RoomState_members state ∈ turns -> roomId state ≠ room) ->
  getMatrixRoomMembers (puppet (listen s turns)) room
  = getMatrixRoomMembers (puppet s) room.
Proof.
  induction turns as [|t turns IH] using rev_ind; intros H; [done|].
  rewrite listen_snoc, dispatch_other_room.
  - apply IH. intros state Hstate. apply H, elem_of_app. by left.
  - intros state ->. apply H, elem_of_app. right. by left.
Qed.

End ListenerFacts.

(** X2: receipts of other users are ignored.  When the puppet's own
    identifier is not an "m.read" acknowledger of any entry (entries
    without an "m.read" member count for nothing), the listener makes no
    call, even with an application attached and the room bound; so it
    is when [this.id] is undefined. *)
Theorem receipt_of_other_users_ignored
    (content : Registry.ReceiptContent) (room : jsstring) (p : Registry.Puppet) :
  (forall entry r, entry ∈ content ->
     r ∈ default [] (Registry.m_read entry.2) -> Some r.1 ≠ Registry.id p) ->
  Registry.onRoomReceipt content room p = [].
Proof.
  intros H. rewrite onRoomReceipt_spec, acknowledgedBy_false by done.
  by destruct (Registry.app p), (Registry.thirdPartyRooms p !! room).
Qed.

Lemma receipt_of_other_users_ignored_witness :
  Registry.onRoomReceipt
    [ (JsString.str "$e1",
       {| Registry.m_read := Some [(JsString.str "@other:b.com", 1)] |});
      (JsString.str "$e2", {| Registry.m_read := None |}) ]
    Sample.room Sample.armed = [].
Proof.
  apply receipt_of_other_users_ignored.
  intros entry r Hentry Hr.
  apply elem_of_cons in Hentry as [->|Hentry].
  - apply list_elem_of_singleton in Hr as ->. vm_compute. discriminate.
  - apply list_elem_of_singleton in Hentry as ->. by apply elem_of_nil in Hr.
Defined.

(** X4: the core never removes a binding and never changes the puppet's
    identity.  Through any sequence of client events and setter calls,
    [this.id] and [this.client] stay as they are and a bound room stays
    bound; without a call of [saveThirdPartyRoomId] the bindings are
    unchanged, and without a call of [setApp] so is the application. *)
Theorem listeners_keep_bindings_and_identity
    (s : Session.Listening) (turns : list Session.Turn) :
  Registry.id (Session.puppet (Session.listen s turns))
    = Registry.id (Session.puppet s)
  /\ Registry.client (Session.puppet (Session.listen s turns))
     = Registry.client (Session.puppet s)
  /\ (forall r, is_Some (Registry.thirdPartyRooms (Session.puppet s) !! r) ->
        is_Some (Registry.thirdPartyRooms
                   (Session.puppet (Session.listen s turns)) !! r))
  /\ ((forall r e, Session.callSaveThirdPartyRoomId r e ∉ turns) ->
      Registry.thirdPartyRooms (Session.puppet (Session.listen s turns))
      = Registry.thirdPartyRooms (Session.puppet s))
  /\ ((forall a, Session.callSetApp a ∉ turns) ->
      Registry.app (Session.puppet (Session.listen s turns))
      = Registry.app (Session.puppet s)).
Proof.
  induction turns as [|t turns IH] using rev_ind; [done|].
  destruct IH as (IHid & IHclient & IHbound & IHrooms & IHapp).
  rewrite listen_snoc.
  destruct (dispatch_frame (Session.listen s turns) t)
    as (Hid & Hclient & Hbound & Hrooms & Happ & _).
  split; [congruence|]. split; [congruence|]. split; [eauto|]. split.
  - intros H. rewrite Hrooms, IHrooms; [done| |].
    + intros r e Hin. apply (H r e), elem_of_app. by left.
    + intros r e ->. apply (H r e), elem_of_app. right. by left.
  - intros H. rewrite Happ, IHapp; [done| |].
    + intros a Hin. apply (H a), elem_of_app. by left.
    + intros a ->. apply (H a), elem_of_app. right. by left.
Qed.

Lemma listeners_keep_bindings_and_identity_witness :
  Registry.thirdPartyRooms
    (Session.puppet
       (Session.listen
          {| Session.puppet := Sample.armed; Session.isSynced := false;
             Session.calls := [] |}
          [Session.Room_receipt Sample.readTwice Sample.room;
           Session.RoomState_members Sample.membersXY;
           Session.callSetApp None]))
  = Registry.thirdPartyRooms Sample.armed.
Proof.
  apply (listeners_keep_bindings_and_identity
           {| Session.puppet := Sample.armed; Session.isSynced := false;
              Session.calls := [] |}
           [Session.Room_receipt Sample.readTwice Sample.room;
            Session.RoomState_members Sample.membersXY;
            Session.callSetApp None]).
  intros r e. decide_ground.
Defined.

(** X7: membership events of different rooms do not interfere: applied
    in either order they leave the same puppet. *)
Theorem membership_events_of_distinct_rooms_commute {Member}
    (state1 state2 : Registry.RoomState Member) (p : Registry.Puppet) :
  Registry.roomId state1 ≠ Registry.roomId state2 ->
  is_Some (Registry.matrixRoomMembers p) ->
  exists p1 p2 p12,
    Registry.onRoomStateMembers state1 p = inr p1
    /\ Registry.onRoomStateMembers state2 p = inr p2
    /\ Registry.onRoomStateMembers state2 p1 = inr p12
    /\ Registry.onRoomStateMembers state1 p2 = inr p12.
Proof.
  intros Hne [m Hm]. unfold Registry.onRoomStateMembers. rewrite Hm. cbn.
  do 3 eexists. split; [reflexivity|]. split; [reflexivity|].
  split; [reflexivity|]. by rewrite insert_insert_ne.
Qed.

Lemma membership_events_of_distinct_rooms_commute_witness :
  exists p1 p2 p12,
    Registry.onRoomStateMembers Sample.membersXY Scenario.started = inr p1
    /\ Registry.onRoomStateMembers
         {| Registry.roomId := JsString.str "!S:b.com";
            Registry.members := [(JsString.str "@z:b.com", tt)] |}
         Scenario.started = inr p2
    /\ Registry.onRoomStateMembers
         {| Registry.roomId := JsString.str "!S:b.com";
            Registry.members := [(JsString.str "@z:b.com", tt)] |} p1 = inr p12
    /\ Registry.onRoomStateMembers Sample.membersXY p2 = inr p12.
Proof.
  apply (membership_events_of_distinct_rooms_commute Sample.membersXY
           {| Registry.roomId := JsString.str "!S:b.com";
              Registry.members := [(JsString.str "@z:b.com", tt)] |}
           Scenario.started).
  - vm_compute. discriminate.
  - eexists. reflexivity.
Defined.

(** X9: [startClient] needs both sections of the config.  Its setup
    throws a TypeError exactly when the [puppet] or the [bridge] section
    is missing; members missing inside a section do not make it throw,
    they reach the client as undefined. *)
Theorem startClient_setup_throws_iff_section_missing
    (config : Config.t) (p : Registry.Puppet) :
  (Registry.startClientSetup config p
   = inl (TypeError "Cannot read properties of undefined")
   <-> Config.puppet config = None \/ Config.bridge config = None)
  /\ ((exists p0, Registry.startClientSetup config p = inr p0)
      <-> is_Some (Config.puppet config) /\ is_Some (Config.bridge config)).
Proof.
  unfold Registry.startClientSetup.
  unfold is_Some.
  destruct (Config.puppet config) as [ps|], (Config.bridge config) as [bs|];
    (split; split);
    first [ done
          | by intros [?|?]
          | by intros [? ?]
          | by intros [[? ?] [? ?]]
          | by eauto
          | by intros; split; eauto ].
Qed.

Lemma startClient_setup_throws_iff_section_missing_witness :
  Registry.startClientSetup Sample.noHomeserver Registry.constructor
  = inl (TypeError "Cannot read properties of undefined").
Proof.
  apply (proj2 (proj1 (startClient_setup_throws_iff_section_missing
                         Sample.noHomeserver Registry.constructor))).
  right. reflexivity.
Defined.

(** X10: only the "PREPARED" sync state marks the session as synced.
    After any sequence of turns [isSynced] holds exactly when it held
    before or "PREPARED" was emitted among them; no other sync state
    ("SYNCING", "ERROR", ...), event or setter call sets it, and nothing
    clears it. *)
Theorem isSynced_set_only_by_prepared
    (s : Session.Listening) (turns : list Session.Turn) :
  Session.isSynced (Session.listen s turns)
  = Session.isSynced s || bool_decide (Session.sync "PREPARED" ∈ turns).
Proof.
  apply eq_true_iff_eq. rewrite orb_true_iff, listen_isSynced.
  rewrite bool_decide_eq_true. done.
Qed.

(** ** associate, further *)

Section AssociateRuns.
Import Associate.

(** The three steps of [associate] after its banner, one after the
    other, each stopping the run when it throws. *)
Lemma associate_run parseURL w this args typed :
  run w (associate parseURL this args) typed
  = let args_ := default {| detectConfigPath := false; registration := None |} args in
    let og := run w (getConfig this) typed in
    match result og with
    | inl e => {| trace := info Banner :: trace og; unread := unread og;
                  result := inl e |}
    | inr (config, this1) =>
        let or := run w (resolve parseURL config (registration args_)) (unread og) in
        match result or with
        | inl e => {| trace := info Banner :: trace og ++ trace or;
                      unread := unread or; result := inl e |}
        | inr (homeserver, creds) =>
            let op := run w (persist config this1 args_ homeserver creds) (unread or) in
            {| trace := info Banner :: trace og ++ trace or ++ trace op;
               unread := unread op; result := result op |}
        end
    end.
Proof.
  unfold associate. cbn [run answer]. rewrite run_bind. cbn zeta.
  destruct (result (run w (getConfig this) typed)) as [e|[config this1]]; [done|].
  rewrite run_bind. cbn zeta.
  by destruct (result (run w (resolve parseURL config _) _)) as [e|[hs creds]].
Qed.

Lemma resolve_run parseURL w config reg typed :
  run w (resolve parseURL config reg) typed
  = let o1 := run w (resolveUserId config) typed in
    match result o1 with
    | inl e => {| trace := trace o1; unread := unread o1; result := inl e |}
    | inr userId =>
        let o2 := run w (resolveHomeserver parseURL config userId) (unread o1) in
        match result o2 with
        | inl e => {| trace := trace o1 ++ trace o2; unread := unread o2;
                      result := inl e |}
        | inr homeserver =>
            let o3 := run w (resolveToken config reg homeserver userId) (unread o2) in
            {| trace := trace o1 ++ trace o2 ++ trace o3; unread := unread o3;
               result := match result o3 with
                         | inl e => inl e
                         | inr creds => inr (homeserver, creds)
                         end |}
        end
    end.
Proof.
  unfold resolve. rewrite run_bind. cbn zeta.
  destruct (result (run w (resolveUserId config) typed)) as [e|userId]; [done|].
  rewrite run_bind. cbn zeta.
  destruct (result (run w (resolveHomeserver parseURL config userId) _))
    as [e|hs]; [done|].
  rewrite run_bind. cbn zeta.
  destruct (result (run w (resolveToken config reg hs userId) _)) as [e|creds]; cbn.
  - done.
  - by rewrite app_nil_r.
Qed.

End AssociateRuns.

(** Case analysis on everything a run of a step depends on: the members
    of the config, the lines typed, and the answers of the world. *)
Ltac run_cases :=
  repeat (cbn [Associate.run Associate.answer Associate.bind mbind mret
                 Associate.prog_bind Associate.prog_ret Associate.settle
                 Associate.trace Associate.unread Associate.result];
          match goal with
          | |- context [Associate.settle ?r] => destruct r eqn:?
          | |- context [match ?x with _ => _ end] =>
              lazymatch x with
              | context [match _ with _ => _ end] => fail
              | _ => destruct x eqn:?
              end
          end).

Section StepTraces.
Import Associate Traces.

Lemma occurrences_app f tr1 tr2 :
  occurrences f (tr1 ++ tr2) = (occurrences f tr1 + occurrences f tr2)%nat.
Proof. unfold occurrences. by rewrite List.filter_app, length_app. Qed.

Lemma occurrences_zero f tr :
  occurrences f tr = 0%nat <-> Forall (fun a => f a = false) tr.
Proof.
  unfold occurrences. induction tr as [|a tr IH]; cbn.
  - split; [constructor|done].
  - destruct (f a) eqn:Hf; cbn.
    + split; [done|]. intros H. inversion H; congruence.
    + rewrite IH. split; [by constructor|]. intros H. by inversion H.
Qed.

(** What each step may do, and how often. *)
Lemma getConfig_actions w this typed :
  trace (run w (getConfig this) typed)
  = match data this with
    | Some _ => []
    | None => [loadConfig (path this) (format this)]
    end
  /\ unread (run w (getConfig this) typed) = typed
  /\ (forall config this1,
        result (run w (getConfig this) typed) = inr (config, this1) ->
        data this1 = Some config /\ path this1 = path this
        /\ format this1 = format this).
Proof.
  unfold getConfig.
  run_cases; cbn; (split; [done|]); (split; [done|]); intros ? ? [= <- <-]; done.
Qed.

Lemma resolveUserId_actions w config typed :
  let o := run w (resolveUserId config) typed in
  Forall (fun a => a = console_error EnterUserId \/ a = read false) (trace o)
  /\ (occurrences isPrompt (trace o) <= 1)%nat
  /\ (forall ps i, Config.puppet config = Some ps -> Config.id ps = Some i ->
        o = {| trace := []; unread := typed; result := inr i |}).
Proof.
  unfold resolveUserId, promptUserId.
  run_cases; cbn; (split; [repeat constructor; auto|]); (split; [lia|]);
    intros ? ? ? ?; simplify_eq; congruence.
Qed.

Lemma resolveHomeserver_actions parseURL w config userId typed :
  let o := run w (resolveHomeserver parseURL config userId) typed in
  Forall (fun a => isLogin a = false /\ isConfigOutput a = false
                   /\ isMaskedPrompt a = false /\ isLoad a = false
                   /\ isArgvLookup a = false) (trace o)
  /\ (occurrences isPrompt (trace o) <= 1)%nat
  /\ (occurrences isDiscovery (trace o) <= 1)%nat
  /\ (forall bs h, Config.bridge config = Some bs -> Config.homeserverUrl bs = Some h ->
        o = {| trace := []; unread := typed; result := inr h |}).
Proof.
  unfold resolveHomeserver, discoverHomeserver, findHome.
  run_cases; cbn; (split; [repeat constructor|]); (split; [lia|]);
    (split; [lia|]); intros ? ? ? ?; simplify_eq; congruence.
Qed.

Lemma resolveToken_actions w config reg homeserver userId typed :
  let o := run w (resolveToken config reg homeserver userId) typed in
  Forall (fun a => isDiscovery a = false /\ isConfigOutput a = false
                   /\ isLoad a = false /\ isArgvLookup a = false
                   /\ forall b u pw n, a = login b u pw n ->
                        b = homeserver /\ u = userId
                        /\ n = getSenderLocalpart <$> reg) (trace o)
  /\ (occurrences isPrompt (trace o) <= 1)%nat
  /\ (occurrences isLogin (trace o) <= 1)%nat
  /\ (forall ps t, Config.puppet config = Some ps -> Config.token ps = Some t ->
        o = {| trace := []; unread := typed;
               result := inr {| homeserverUrl := homeserver; id := userId;
                                token := t |} |}).
Proof.
  unfold resolveToken, passwordLogin.
  run_cases; cbn; (split; [repeat constructor; by intros; simplify_eq|]);
    (split; [lia|]); (split; [lia|]); intros ? ? ? ?; simplify_eq; congruence.
Qed.

End StepTraces.

Section WholeRuns.
Import Associate Traces.

Lemma persist_actions w config this args_ homeserver creds typed :
  let o := run w (persist config this args_ homeserver creds) typed in
  Forall (fun a => isPrompt a = false /\ isDiscovery a = false
                   /\ isLogin a = false /\ isLoad a = false) (trace o)
  /\ (occurrences isConfigOutput (trace o) <= 1)%nat
  /\ unread o = typed.
Proof.
  unfold persist.
  run_cases; cbn; (split; [repeat constructor|]); (split; [lia|done]).
Qed.

Lemma persist_failure w config this args_ homeserver creds typed e :
  let o := run w (persist config this args_ homeserver creds) typed in
  result o = inl e ->
  Forall (fun a => isConfigOutput a = true ->
                   exists cp f c, a = writeFile cp f c /\ fileSystem w cp = inl e)
    (trace o).
Proof.
  unfold persist.
  run_cases; cbn; intros ?; simplify_eq; repeat constructor; try done;
    intros _; eauto.
Qed.

Lemma persist_destination w config this args_ homeserver creds typed :
  let o := run w (persist config this args_ homeserver creds) typed in
  (forall p, path this = Some p ->
     Forall (fun a => isArgvLookup a = false
                      /\ (isConfigOutput a = true ->
                          a = writeFile p (format this)
                                (Object_assign config
                                   (puppetConfig (id creds) (token creds) homeserver))))
       (trace o))
  /\ (path this = None -> detectConfigPath args_ = false ->
      Forall (fun a => isArgvLookup a = false /\ isWrite a = false) (trace o))
  /\ (path this = None -> detectConfigPath args_ = true ->
      Forall (fun a => forall cp f c, a = writeFile cp f c -> argv w = Some cp)
        (trace o)).
Proof.
  unfold persist.
  run_cases; cbn; (split; [|split]); intros; simplify_eq;
    repeat constructor; try done; intros; simplify_eq; done.
Qed.

Lemma persist_result w config this args_ homeserver creds typed this1 :
  data this = Some config ->
  result (run w (persist config this args_ homeserver creds) typed) = inr this1 ->
  path this1 = path this /\ format this1 = format this
  /\ exists config1 bo,
       data this1 = Some config1
       /\ Config.puppet config1
          = Some {| Config.id := Some (id creds); Config.token := Some (token creds) |}
       /\ Config.bridge config1
          = Some {| Config.homeserverUrl := Some homeserver; Config.bridgeOthers := bo |}
       /\ Config.others config1 = Config.others config.
Proof.
  intros Hdata. unfold persist.
  destruct (differs config (id creds) (token creds) homeserver) eqn:Hdiff.
  - run_cases; cbn; intros ?; simplify_eq; cbn; eauto 10.
  - cbn. intros [= <-]. split; [done|]. split; [done|].
    unfold differs in Hdiff.
    destruct (Config.puppet config) as [[i t]|] eqn:Hp; [|done].
    destruct (Config.bridge config) as [[h bo]|] eqn:Hb; [|done].
    cbn in Hdiff.
    repeat (apply orb_false_iff in Hdiff as [Hdiff ?]).
    repeat match goal with
           | H : negb (bool_decide _) = false |- _ =>
               apply negb_false_iff, bool_decide_eq_true in H
           end.
    simplify_eq. exists config, bo. by rewrite Hp, Hb.
Qed.

(** What the three steps of [resolve] do together. *)
Lemma resolve_actions parseURL w config reg typed :
  let o := run w (resolve parseURL config reg) typed in
  Forall (fun a => isConfigOutput a = false /\ isLoad a = false
                   /\ isArgvLookup a = false) (trace o)
  /\ (occurrences isPrompt (trace o) <= 3)%nat
  /\ (occurrences isDiscovery (trace o) <= 1)%nat
  /\ (occurrences isLogin (trace o) <= 1)%nat.
Proof.
  cbn zeta. rewrite resolve_run. cbn zeta.
  destruct (resolveUserId_actions w config typed) as (F1 & P1 & _).
  set (o1 := run w (resolveUserId config) typed) in *.
  assert (Forall (fun a => isConfigOutput a = false /\ isLoad a = false
                           /\ isArgvLookup a = false /\ isDiscovery a = false
                           /\ isLogin a = false) (trace o1)) as F1'.
  { eapply Forall_impl; [exact F1|]. by intros a [-> | ->]. }
  assert (occurrences isDiscovery (trace o1) = 0%nat) as D1.
  { apply occurrences_zero. eapply Forall_impl; [exact F1'|]. by intros a (?&?&?&?&?). }
  assert (occurrences isLogin (trace o1) = 0%nat) as L1.
  { apply occurrences_zero. eapply Forall_impl; [exact F1'|]. by intros a (?&?&?&?&?). }
  destruct (result o1) as [e|userId]; cbn [trace unread result].
  { split; [|lia]. eapply Forall_impl; [exact F1'|]. by intros a (?&?&?&?&?). }
  destruct (resolveHomeserver_actions parseURL w config userId (unread o1))
    as (F2 & P2 & D2 & _).
  set (o2 := run w (resolveHomeserver parseURL config userId) (unread o1)) in *.
  assert (occurrences isLogin (trace o2) = 0%nat) as L2.
  { apply occurrences_zero. eapply Forall_impl; [exact F2|]. by intros a (?&?&?&?&?). }
  destruct (result o2) as [e|homeserver]; cbn [trace unread result].
  { rewrite !occurrences_app. split; [|lia]. apply Forall_app. split.
    - eapply Forall_impl; [exact F1'|]. by intros a (?&?&?&?&?).
    - eapply Forall_impl; [exact F2|]. by intros a (?&?&?&?&?). }
  destruct (resolveToken_actions w config reg homeserver userId (unread o2))
    as (F3 & P3 & L3 & _).
  set (o3 := run w (resolveToken config reg homeserver userId) (unread o2)) in *.
  assert (occurrences isDiscovery (trace o3) = 0%nat) as D3.
  { apply occurrences_zero. eapply Forall_impl; [exact F3|]. by intros a (?&?&?&?&?). }
  rewrite !occurrences_app. split; [|lia].
  rewrite !Forall_app. split; [|split].
  - eapply Forall_impl; [exact F1'|]. by intros a (?&?&?&?&?).
  - eapply Forall_impl; [exact F2|]. by intros a (?&?&?&?&?).
  - eapply Forall_impl; [exact F3|]. by intros a (?&?&?&?&?).
Qed.

End WholeRuns.

Section WholeAssociate.
Import Associate Traces.

(** The actions of [associate], step by step. *)
Lemma associate_actions parseURL w this args typed (P : action -> Prop) :
  P (info Banner) ->
  Forall P (trace (run w (getConfig this) typed)) ->
  (forall config this1,
     result (run w (getConfig this) typed) = inr (config, this1) ->
     Forall P (trace (run w (resolve parseURL config
                               (registration
                                  (default {| detectConfigPath := false;
                                              registration := None |} args)))
                        typed))
     /\ forall homeserver creds typed',
          result (run w (resolve parseURL config
                              (registration
                                 (default {| detectConfigPath := false;
                                             registration := None |} args)))
                       typed) = inr (homeserver, creds) ->
          Forall P (trace (run w (persist config this1
                                    (default {| detectConfigPath := false;
                                                registration := None |} args)
                                    homeserver creds) typed'))) ->
  Forall P (trace (run w (associate parseURL this args) typed)).
Proof.
  intros HB Hg Hrest. rewrite associate_run. cbn zeta.
  destruct (getConfig_actions w this typed) as (_ & Hun & _).
  destruct (result (run w (getConfig this) typed)) as [e|[config this1]] eqn:Hog.
  - cbn. by constructor.
  - destruct (Hrest config this1 eq_refl) as [Hr Hp].
    rewrite Hun.
    destruct (result (run w (resolve parseURL config _) typed))
      as [e|[homeserver creds]] eqn:Hor; cbn [trace].
    + constructor; [done|]. apply Forall_app. done.
    + constructor; [done|]. rewrite !Forall_app. eauto.
Qed.

Lemma getConfig_quiet w this typed :
  Forall (fun a => isPrompt a = false /\ isDiscovery a = false
                   /\ isLogin a = false /\ isConfigOutput a = false
                   /\ isArgvLookup a = false)
    (trace (run w (getConfig this) typed))
  /\ (occurrences isLoad (trace (run w (getConfig this) typed)) <= 1)%nat.
Proof.
  destruct (getConfig_actions w this typed) as (-> & _).
  destruct (data this); cbn; split; repeat constructor.
Qed.

End WholeAssociate.

(** X11: [associate] never tries anything twice.  In every run, whatever
    the operator types and the collaborators answer, it reads the config
    file at most once, prompts at most three times, makes at most one
    discovery query and at most one login, and writes or shows a config
    at most once. *)
Theorem associate_does_nothing_twice
    (parseURL : jsstring -> option jsstring) (w : Associate.World)
    (this : Associate.ConfigHolder) (args : option Associate.Args)
    (typed : list jsstring) :
  let tr := Associate.trace
              (Associate.run w (Associate.associate parseURL this args) typed) in
  (Traces.occurrences Traces.isLoad tr <= 1)%nat
  /\ (Traces.occurrences Associate.isPrompt tr <= 3)%nat
  /\ (Traces.occurrences Associate.isDiscovery tr <= 1)%nat
  /\ (Traces.occurrences Associate.isLogin tr <= 1)%nat
  /\ (Traces.occurrences Associate.isConfigOutput tr <= 1)%nat.
Proof.
  cbn zeta. rewrite associate_run. cbn zeta.
  destruct (getConfig_quiet w this typed) as (Fg & Lg).
  destruct (getConfig_actions w this typed) as (_ & Hun & _).
  set (og := Associate.run w (Associate.getConfig this) typed) in *.
  assert (Traces.occurrences Associate.isPrompt (Associate.trace og) = 0
          /\ Traces.occurrences Associate.isDiscovery (Associate.trace og) = 0
          /\ Traces.occurrences Associate.isLogin (Associate.trace og) = 0
          /\ Traces.occurrences Associate.isConfigOutput (Associate.trace og) = 0)%nat
    as (Pg & Dg & Ng & Og).
  { rewrite !occurrences_zero.
    repeat split; (eapply Forall_impl; [exact Fg|]); by intros a (?&?&?&?&?). }
  destruct (Associate.result og) as [e|[config this1]];
    cbn [Associate.trace].
  { change (?x :: ?l) with ([x] ++ l). rewrite !occurrences_app. cbn. lia. }
  rewrite Hun.
  destruct (resolve_actions parseURL w config
              (Associate.registration
                 (default {| Associate.detectConfigPath := false;
                             Associate.registration := None |} args)) typed)
    as (Fr & Pr & Dr & Nr).
  set (or := Associate.run w (Associate.resolve parseURL config _) typed) in *.
  assert (Traces.occurrences Traces.isLoad (Associate.trace or) = 0
          /\ Traces.occurrences Associate.isConfigOutput (Associate.trace or) = 0)%nat
    as (Lr & Or).
  { rewrite !occurrences_zero.
    split; (eapply Forall_impl; [exact Fr|]); by intros a (?&?&?). }
  destruct (Associate.result or) as [e|[homeserver creds]];
    cbn [Associate.trace].
  { change (?x :: ?l) with ([x] ++ l). rewrite !occurrences_app. cbn. lia. }
  destruct (persist_actions w config this1
              (default {| Associate.detectConfigPath := false;
                          Associate.registration := None |} args)
              homeserver creds (Associate.unread or)) as (Fp & Op & _).
  set (op := Associate.run w (Associate.persist config this1 _ homeserver creds) _) in *.
  assert (Traces.occurrences Associate.isPrompt (Associate.trace op) = 0
          /\ Traces.occurrences Associate.isDiscovery (Associate.trace op) = 0
          /\ Traces.occurrences Associate.isLogin (Associate.trace op) = 0
          /\ Traces.occurrences Traces.isLoad (Associate.trace op) = 0)%nat
    as (Pp & Dp & Np & Lp).
  { rewrite !occurrences_zero.
    repeat split; (eapply Forall_impl; [exact Fp|]); by intros a (?&?&?&?). }
  change (?x :: ?l) with ([x] ++ l). rewrite !occurrences_app. cbn. lia.
Qed.

Lemma Forall_elem {A} (P : A -> Prop) (l : list A) :
  Forall P l -> forall a, a ∈ l -> P a.
Proof. by rewrite Forall_forall. Qed.

(** X14: where an update goes.  For a puppet constructed the legacy way
    from a path, the config is read from that file as JSON and every
    update is written to the same file as JSON, never shown and never
    looked up in the command line.  For a puppet constructed from
    options, an update is written to [configPath] in [configFormat] when
    the path is given; when it is not, and [associate] is not asked to
    detect it, no file is ever written. *)
Theorem update_destination_follows_construction
    (parseURL : jsstring -> option jsstring) (w : Associate.World)
    (cargs : Construction.Args) (args : option Associate.Args)
    (typed : list jsstring) :
  let tr := Associate.trace
              (Associate.run w
                 (Associate.associate parseURL (Construction.config cargs) args)
                 typed) in
  (forall p, cargs = Construction.legacy p ->
     Forall (fun a =>
               (forall q f, a = Associate.loadConfig q f ->
                  q = Some p /\ f = Some "json"%string)
               /\ (forall cp f c, a = Associate.writeFile cp f c ->
                     cp = p /\ f = Some "json"%string)
               /\ (forall c, a ≠ Associate.console_log c)
               /\ a ≠ Associate.argvConfigPath) tr)
  /\ (forall c p f, cargs = Construction.options c (Some p) f ->
        Forall (fun a =>
                  (forall cp f' c', a = Associate.writeFile cp f' c' ->
                     cp = p /\ f' = f)
                  /\ (forall c', a ≠ Associate.console_log c')
                  /\ a ≠ Associate.argvConfigPath) tr)
  /\ (forall c f, cargs = Construction.options c None f ->
        default false (Associate.detectConfigPath <$> args) = false ->
        Forall (fun a => Traces.isWrite a = false
                         /\ Traces.isArgvLookup a = false) tr).
Proof.
  cbn zeta. split; [|split].
  - intros p ->. apply associate_actions.
    + repeat split; intros; discriminate.
    + destruct (getConfig_actions w (Construction.config (Construction.legacy p)) typed)
        as (-> & _).
      cbn. repeat constructor; intros; simplify_eq; done.
    + intros config this1 Hog.
      destruct (getConfig_actions w (Construction.config (Construction.legacy p)) typed)
        as (_ & _ & Hthis).
      destruct (Hthis _ _ Hog) as (_ & Hpath & Hformat). cbn in Hpath, Hformat.
      split.
      * eapply Forall_impl; [apply resolve_actions|].
        intros a (Hout & Hload & Hargv).
        destruct a; cbn in Hout, Hload, Hargv; try discriminate;
          repeat split; intros; simplify_eq; done.
      * intros homeserver creds typed' _.
        destruct (persist_destination w config this1
                    (default {| Associate.detectConfigPath := false;
                                Associate.registration := None |} args)
                    homeserver creds typed') as (Hdest & _).
        destruct (persist_actions w config this1
                    (default {| Associate.detectConfigPath := false;
                                Associate.registration := None |} args)
                    homeserver creds typed') as (Hact & _).
        pose proof (conj (Hdest p Hpath) Hact) as Hboth.
        apply Forall_and in Hboth.
        eapply Forall_impl; [exact Hboth|].
        intros a [[Hargv Hout] (_ & _ & _ & Hload)].
        split; [by intros q f ->|]. split; [|split].
        -- intros cp f c ->. specialize (Hout eq_refl).
           injection Hout as -> -> _. by rewrite Hformat.
        -- intros c ->. specialize (Hout eq_refl). discriminate.
        -- by intros ->.
  - intros c p f ->. apply associate_actions.
    + repeat split; intros; discriminate.
    + destruct (getConfig_actions w
                  (Construction.config (Construction.options c (Some p) f)) typed)
        as (-> & _).
      cbn. destruct c; repeat constructor; intros; simplify_eq; done.
    + intros config this1 Hog.
      destruct (getConfig_actions w (Construction.config (Construction.options c (Some p) f)) typed)
        as (_ & _ & Hthis).
      destruct (Hthis _ _ Hog) as (_ & Hpath & Hformat). cbn in Hpath, Hformat.
      split.
      * eapply Forall_impl; [apply resolve_actions|].
        intros a (Hout & Hload & Hargv).
        destruct a; cbn in Hout, Hload, Hargv; try discriminate;
          repeat split; intros; simplify_eq; done.
      * intros homeserver creds typed' _.
        destruct (persist_destination w config this1
                    (default {| Associate.detectConfigPath := false;
                                Associate.registration := None |} args)
                    homeserver creds typed') as (Hdest & _).
        eapply Forall_impl; [exact (Hdest p Hpath)|].
        intros a [Hargv Hout]. split; [|split].
        -- intros cp f' c' ->. specialize (Hout eq_refl).
           injection Hout as -> -> _. by rewrite Hformat.
        -- intros c' ->. specialize (Hout eq_refl). discriminate.
        -- by intros ->.
  - intros c f -> Hdetect. apply associate_actions.
    + done.
    + destruct (getConfig_actions w
                  (Construction.config (Construction.options c None f)) typed)
        as (-> & _).
      cbn. destruct c; repeat constructor.
    + intros config this1 Hog.
      destruct (getConfig_actions w (Construction.config (Construction.options c None f)) typed)
        as (_ & _ & Hthis).
      destruct (Hthis _ _ Hog) as (_ & Hpath & Hformat). cbn in Hpath, Hformat.
      split.
      * eapply Forall_impl; [apply resolve_actions|].
        intros a (Hout & Hload & Hargv). split; [|done].
        by destruct a.
      * intros homeserver creds typed' _.
        destruct (persist_destination w config this1
                    (default {| Associate.detectConfigPath := false;
                                Associate.registration := None |} args)
                    homeserver creds typed') as (_ & Hdest & _).
        eapply Forall_impl; [apply (Hdest Hpath)|].
        -- by destruct args.
        -- by intros a [? ?].
Qed.

Lemma update_destination_follows_construction_witness :
  Forall (fun a =>
            (forall q f, a = Associate.loadConfig q f ->
               q = Some (JsString.str "config.json") /\ f = Some "json"%string)
            /\ (forall cp f c, a = Associate.writeFile cp f c ->
                  cp = JsString.str "config.json" /\ f = Some "json"%string)
            /\ (forall c, a ≠ Associate.console_log c)
            /\ a ≠ Associate.argvConfigPath)
    (Associate.trace
       (Associate.run Scenario.onDisk
          (Associate.associate Sample.parseURL
             (Construction.config (Construction.legacy (JsString.str "config.json")))
             None)
          [JsString.str "secret"])).
Proof.
  apply (proj1 (update_destination_follows_construction Sample.parseURL
                  Scenario.onDisk (Construction.legacy (JsString.str "config.json"))
                  None [JsString.str "secret"])).
  reflexivity.
Defined.

(** X15: [associate] settles.  The holder that a successful [associate]
    leaves behind has all three credentials, so running [associate] on
    it again, in any world and with any arguments, prompts for nothing,
    queries nothing, writes nothing and returns the same holder: it only
    logs its banner. *)
Theorem associate_again_changes_nothing
    (parseURL : jsstring -> option jsstring) (w : Associate.World)
    (this this' : Associate.ConfigHolder) (args : option Associate.Args)
    (typed : list jsstring) :
  Associate.result (Associate.run w (Associate.associate parseURL this args) typed)
    = inr this' ->
  forall parseURL' w' args' typed',
    Associate.run w' (Associate.associate parseURL' this' args') typed'
    = {| Associate.trace := [Associate.info Associate.Banner];
         Associate.unread := typed';
         Associate.result := inr this' |}.
Proof.
  rewrite associate_run. cbn zeta.
  destruct (getConfig_actions w this typed) as (_ & _ & Hthis).
  destruct (Associate.result (Associate.run w (Associate.getConfig this) typed))
    as [e|[config this1]]; [done|].
  destruct (Hthis _ _ eq_refl) as (Hdata & _).
  destruct (Associate.result (Associate.run w (Associate.resolve parseURL config _) _))
    as [e|[homeserver creds]]; [done|].
  cbn [Associate.result]. intros Hop.
  destruct (persist_result _ _ _ _ _ _ _ _ Hdata Hop)
    as (_ & _ & config1 & bo & Hdata' & Hp & Hb & _).
  intros parseURL' w' args' typed'. rewrite associate_run. cbn zeta.
  assert (Associate.run w' (Associate.getConfig this') typed'
          = {| Associate.trace := []; Associate.unread := typed';
               Associate.result := inr (config1, this') |}) as ->.
  { unfold Associate.getConfig. by rewrite Hdata'. }
  cbn [Associate.result Associate.unread Associate.trace].
  rewrite (resolve_full_config _ _ _ _ _ _ _ _ _ Hp Hb).
  cbn [Associate.result Associate.unread Associate.trace].
  by rewrite (persist_full_config _ _ _ _ _ _ _ Hp Hb).
Qed.

Lemma associate_again_changes_nothing_witness :
  exists this',
    Associate.result
      (Associate.run Sample.world
         (Associate.associate Sample.parseURL (Sample.holder Sample.noToken) None)
         [JsString.str "secret"]) = inr this'
    /\ Associate.run Scenario.undiscoverable
         (Associate.associate Sample.parseURL this' None) []
       = {| Associate.trace := [Associate.info Associate.Banner];
            Associate.unread := [];
            Associate.result := inr this' |}.
Proof.
  eexists. split; [vm_compute; reflexivity|].
  eapply (associate_again_changes_nothing Sample.parseURL Sample.world
            (Sample.holder Sample.noToken) _ None [JsString.str "secret"]).
  vm_compute. reflexivity.
Defined.

Section LoginFacts.
Import Associate Traces.

Lemma resolveToken_with_token w config reg homeserver userId typed ps t :
  Config.puppet config = Some ps -> Config.token ps = Some t ->
  trace (run w (resolveToken config reg homeserver userId) typed) = [].
Proof.
  intros Hps Ht.
  destruct (resolveToken_actions w config reg homeserver userId typed)
    as (_ & _ & _ & Hfull).
  by rewrite (Hfull _ _ Hps Ht).
Qed.

Lemma resolveUserId_unmasked w config typed :
  Forall (fun a => isLogin a = false /\ isMaskedPrompt a = false)
    (trace (run w (resolveUserId config) typed)).
Proof.
  eapply Forall_impl; [apply resolveUserId_actions|]. by intros a [-> | ->].
Qed.

End LoginFacts.

(** X16: a token in the config means no password.  When [puppet.token]
    is present, no run of [associate] asks for a password (the masked
    prompt) or calls login, whether or not the identifier and the
    homeserver are in the config and whatever happens while they are
    resolved. *)
Theorem token_in_config_means_no_login
    (parseURL : jsstring -> option jsstring) (w : Associate.World)
    (this : Associate.ConfigHolder) (args : option Associate.Args)
    (typed : list jsstring) :
  (forall config this1,
     Associate.result (Associate.run w (Associate.getConfig this) typed)
       = inr (config, this1) ->
     exists ps t, Config.puppet config = Some ps /\ Config.token ps = Some t) ->
  Forall (fun a => Associate.isLogin a = false /\ Traces.isMaskedPrompt a = false)
    (Associate.trace (Associate.run w (Associate.associate parseURL this args) typed)).
Proof.
  intros Htoken. apply associate_actions.
  - done.
  - eapply Forall_impl; [apply getConfig_quiet|].
    intros a (Hp & _ & Hl & _). split; [done|]. by destruct a.
  - intros config this1 Hog. destruct (Htoken _ _ Hog) as (ps & t & Hps & Ht).
    split.
    + rewrite resolve_run. cbn zeta.
      pose proof (resolveUserId_unmasked w config typed) as F1.
      destruct (Associate.result (Associate.run w (Associate.resolveUserId config) typed))
        as [e|userId]; [done|].
      pose proof (resolveHomeserver_actions parseURL w config userId
                    (Associate.unread
                       (Associate.run w (Associate.resolveUserId config) typed)))
        as (F2 & _).
      assert (Forall (fun a => Associate.isLogin a = false
                               /\ Traces.isMaskedPrompt a = false)
                (Associate.trace
                   (Associate.run w
                      (Associate.resolveHomeserver parseURL config userId)
                      (Associate.unread
                         (Associate.run w (Associate.resolveUserId config) typed)))))
        as F2'.
      { eapply Forall_impl; [exact F2|]. by intros a (?&?&?&?). }
      destruct (Associate.result
                  (Associate.run w (Associate.resolveHomeserver parseURL config userId) _))
        as [e|homeserver]; cbn [Associate.trace].
      * by apply Forall_app.
      * rewrite (resolveToken_with_token _ _ _ _ _ _ _ _ Hps Ht), app_nil_r.
        by apply Forall_app.
    + intros homeserver creds typed' _.
      eapply Forall_impl; [apply persist_actions|].
      intros a (Hp & _ & Hl & _). split; [done|]. by destruct a.
Qed.

Lemma token_in_config_means_no_login_witness :
  Forall (fun a => Associate.isLogin a = false /\ Traces.isMaskedPrompt a = false)
    (Associate.trace
       (Associate.run Sample.world
          (Associate.associate Sample.parseURL (Sample.holder Sample.noHomeserver) None)
          [])).
Proof.
  apply (token_in_config_means_no_login Sample.parseURL Sample.world
           (Sample.holder Sample.noHomeserver) None []).
  intros config this1 [= <- <-]. do 2 eexists. split; reflexivity.
Defined.

(** X17: what the login is given.  A login made by [resolve] goes to the
    locally resolved homeserver, never to one the server advertises
    later: to [bridge.homeserverUrl] when the config has it; it is made
    for [puppet.id] when the config has it, and only when the config has
    no token; its password is one of the lines the operator typed, in a
    run that has a masked prompt; and its device display name is the
    sender localpart of the registration, or undefined without one. *)
Theorem login_request_uses_local_values
    (parseURL : jsstring -> option jsstring) (w : Associate.World)
    (config : Config.t) (reg : option Associate.Registration)
    (typed : list jsstring) (b u pw : jsstring) (n : option jsstring) :
  Associate.login b u pw n
    ∈ Associate.trace (Associate.run w (Associate.resolve parseURL config reg) typed) ->
  n = Associate.getSenderLocalpart <$> reg
  /\ (forall bs h, Config.bridge config = Some bs ->
        Config.homeserverUrl bs = Some h -> b = h)
  /\ (forall ps i, Config.puppet config = Some ps -> Config.id ps = Some i -> u = i)
  /\ (forall ps, Config.puppet config = Some ps -> Config.token ps = None)
  /\ Associate.read true
       ∈ Associate.trace
           (Associate.run w (Associate.resolve parseURL config reg) typed)
  /\ pw ∈ typed.
Proof.
  rewrite resolve_run. cbn zeta.
  pose proof (resolveUserId_unmasked w config typed) as F1.
  destruct (resolveUserId_actions w config typed) as (_ & _ & Hid).
  set (o1 := Associate.run w (Associate.resolveUserId config) typed) in *.
  assert (Associate.login b u pw n ∉ Associate.trace o1) as N1.
  { intros Hin. by destruct (Forall_elem _ _ F1 _ Hin). }
  assert (exists k, Associate.unread o1 = drop k typed) as [k1 Hk1].
  { subst o1. unfold Associate.resolveUserId, Associate.promptUserId.
    run_cases; cbn; first [by exists 0%nat | by exists 1%nat]. }
  destruct (Associate.result o1) as [e|userId] eqn:Ho1; [done|].
  destruct (resolveHomeserver_actions parseURL w config userId (Associate.unread o1))
    as (F2 & _ & _ & Hhs).
  set (o2 := Associate.run w (Associate.resolveHomeserver parseURL config userId) _) in *.
  assert (Associate.login b u pw n ∉ Associate.trace o2) as N2.
  { intros Hin. by destruct (Forall_elem _ _ F2 _ Hin). }
  assert (exists k, Associate.unread o2 = drop k (Associate.unread o1)) as [k2 Hk2].
  { subst o2. unfold Associate.resolveHomeserver, Associate.discoverHomeserver,
      Associate.findHome.
    run_cases; cbn; first [by exists 0%nat | by exists 1%nat]. }
  destruct (Associate.result o2) as [e|homeserver] eqn:Ho2; cbn [Associate.trace].
  { intros [?|?]%elem_of_app; done. }
  intros [?|[?|Hin]%elem_of_app]%elem_of_app; [done|done|].
  destruct (resolveToken_actions w config reg homeserver userId (Associate.unread o2))
    as (F3 & _ & _ & Htok).
  destruct (Forall_elem _ _ F3 _ Hin) as (_ & _ & _ & _ & Hlogin).
  destruct (Hlogin _ _ _ _ eq_refl) as (-> & -> & ->).
  split; [done|]. split; [|split; [|split; [|split]]].
  - intros bs h Hbs Hh. rewrite (Hhs _ _ Hbs Hh) in Ho2. cbn in Ho2. congruence.
  - intros ps i Hps Hi. rewrite (Hid _ _ Hps Hi) in Ho1. cbn in Ho1. congruence.
  - intros ps Hps. destruct (Config.token ps) as [t|] eqn:Ht; [|done].
    rewrite (Htok _ _ Hps Ht) in Hin. by apply elem_of_nil in Hin.
  - rewrite !elem_of_app. right. right. revert Hin.
    unfold Associate.resolveToken, Associate.passwordLogin.
    run_cases; cbn; rewrite ?elem_of_cons, ?elem_of_nil;
      intros; intuition (try discriminate; auto).
  - assert (pw ∈ Associate.unread o2) as Hpw.
    { revert Hin. unfold Associate.resolveToken, Associate.passwordLogin.
      run_cases; cbn; intros Hin;
        repeat (apply elem_of_cons in Hin as [Hin|Hin]; try discriminate);
        try (by apply elem_of_nil in Hin); simplify_eq; by left. }
    rewrite Hk2, Hk1 in Hpw.
    by eapply subseteq_drop, subseteq_drop.
Qed.

Lemma login_request_uses_local_values_witness :
  None = Associate.getSenderLocalpart <$> (None : option Associate.Registration)
  /\ (forall bs h, Config.bridge Sample.noToken = Some bs ->
        Config.homeserverUrl bs = Some h -> JsString.str "https://b.com" = h)
  /\ (forall ps i, Config.puppet Sample.noToken = Some ps ->
        Config.id ps = Some i -> Sample.me = i)
  /\ (forall ps, Config.puppet Sample.noToken = Some ps -> Config.token ps = None)
  /\ Associate.read true
       ∈ Associate.trace
           (Associate.run Sample.world
              (Associate.resolve Sample.parseURL Sample.noToken None)
              [JsString.str "secret"])
  /\ JsString.str "secret" ∈ [JsString.str "secret"].
Proof.
  apply (login_request_uses_local_values Sample.parseURL Sample.world
           Sample.noToken None [JsString.str "secret"]
           (JsString.str "https://b.com") Sample.me (JsString.str "secret") None).
  decide_ground.
Defined.

(** X18: a failed discovery is not recovered.  When the config has the
    identifier and no homeserver, the identifier parses, and discovery
    at its domain rejects or reports a state other than "SUCCESS",
    [resolve] ends with that rejection or with the reported error: the
    operator is not asked for a homeserver, nothing is read, and no
    second query is made. *)
Theorem failed_discovery_is_not_recovered
    (parseURL : jsstring -> option jsstring) (w : Associate.World)
    (config : Config.t) (reg : option Associate.Registration)
    (typed : list jsstring) (ps : Config.Puppet) (userId : jsstring) (m : Mxid) :
  Config.puppet config = Some ps -> Config.id ps = Some userId ->
  Config.bridge config ≫= Config.homeserverUrl = None ->
  parseMxid userId = inr m ->
  (forall hs, Associate.discovery w (domain m) = inr hs ->
     Associate.state hs ≠ "SUCCESS"%string) ->
  Associate.run w (Associate.resolve parseURL config reg) typed
  = {| Associate.trace :=
         [Associate.info (Associate.SearchingForHomeserver (domain m));
          Associate.findClientConfig (domain m)];
       Associate.unread := typed;
       Associate.result :=
         inl match Associate.discovery w (domain m) with
             | inl e => e
             | inr hs => Thrown (Associate.error hs)
             end |}.
Proof.
  intros Hps Hid Hbridge Hm Hfail. rewrite resolve_run. cbn zeta.
  destruct (resolveUserId_actions w config typed) as (_ & _ & Huser).
  rewrite (Huser _ _ Hps Hid). cbn [Associate.result Associate.unread Associate.trace].
  assert (Associate.resolveHomeserver parseURL config userId
          = Associate.findHome (domain m)) as ->.
  { unfold Associate.resolveHomeserver, Associate.discoverHomeserver.
    destruct (Config.bridge config) as [bs|]; cbn in Hbridge;
      rewrite ?Hbridge, Hm; done. }
  unfold Associate.findHome. cbn.
  destruct (Associate.discovery w (domain m)) as [e|hs] eqn:Hd; cbn; [done|].
  destruct (decide (Associate.state hs = "SUCCESS"%string)) as [Hs|Hs]; [|done].
  by destruct (Hfail hs eq_refl).
Qed.

Lemma failed_discovery_is_not_recovered_witness :
  Associate.run Scenario.undiscoverable
    (Associate.resolve Sample.parseURL Sample.noHomeserver None)
    [JsString.str "https://b.com"]
  = {| Associate.trace :=
         [Associate.info (Associate.SearchingForHomeserver (JsString.str "b.com"));
          Associate.findClientConfig (JsString.str "b.com")];
       Associate.unread := [JsString.str "https://b.com"];
       Associate.result :=
         inl (Thrown (JsString.str "Invalid homeserver discovery response")) |}.
Proof.
  apply (failed_discovery_is_not_recovered Sample.parseURL Scenario.undiscoverable
           Sample.noHomeserver None [JsString.str "https://b.com"]
           {| Config.id := Some Sample.me; Config.token := Some (JsString.str "tok") |}
           Sample.me
           {| localpart := JsString.str "@a"; domain := JsString.str "b.com" |}).
  - reflexivity.
  - reflexivity.
  - reflexivity.
  - vm_compute. reflexivity.
  - intros hs [= <-]. cbn. discriminate.
Defined.

(** X19: the homeserver is asked for exactly when the identifier does
    not parse.  With no [bridge.homeserverUrl] in the config, the
    operator is prompted for the homeserver if and only if [parseMxid]
    throws on the identifier; an answer that parses as a URL is taken
    without any discovery query; and a homeserver that is resolved is
    either the [base_url] of a successful discovery or the serialized
    URL of a line the operator typed. *)
Theorem homeserver_asked_iff_identifier_unparsable
    (parseURL : jsstring -> option jsstring) (w : Associate.World)
    (config : Config.t) (userId : jsstring) (typed : list jsstring) :
  Config.bridge config ≫= Config.homeserverUrl = None ->
  let o := Associate.run w (Associate.resolveHomeserver parseURL config userId) typed in
  (Associate.console_error Associate.EnterHomeserverUrl ∈ Associate.trace o
   <-> exists e, parseMxid userId = inl e)
  /\ (forall e line typed' href,
        parseMxid userId = inl e -> typed = line :: typed' ->
        parseURL line = Some href ->
        o = {| Associate.trace :=
                 [Associate.console_error Associate.EnterHomeserverUrl;
                  Associate.read false];
               Associate.unread := typed';
               Associate.result := inr href |})
  /\ (forall h, Associate.result o = inr h ->
        (exists d hs, Associate.discovery w d = inr hs
           /\ Associate.state hs = "SUCCESS"%string /\ h = Associate.base_url hs)
        \/ (exists line, line ∈ typed /\ parseURL line = Some h)).
Proof.
  intros Hbridge. cbn zeta.
  assert (Associate.resolveHomeserver parseURL config userId
          = Associate.discoverHomeserver parseURL userId) as ->.
  { unfold Associate.resolveHomeserver.
    destruct (Config.bridge config) as [bs|]; [|done].
    cbn in Hbridge. by rewrite Hbridge. }
  split; [|split].
  - split.
    + intros Hin. destruct (parseMxid userId) as [e|m] eqn:Hm; [eauto|].
      exfalso. revert Hin. unfold Associate.discoverHomeserver, Associate.findHome.
      rewrite Hm. run_cases; cbn; intros Hin;
        repeat (apply elem_of_cons in Hin as [Hin|Hin]; try discriminate);
        by apply elem_of_nil in Hin.
    + intros [e He]. unfold Associate.discoverHomeserver. rewrite He.
      cbn. destruct typed; cbn; left.
  - intros e line typed' href He -> Hurl.
    unfold Associate.discoverHomeserver. rewrite He. cbn. by rewrite Hurl.
  - intros h. unfold Associate.discoverHomeserver, Associate.findHome.
    run_cases; cbn; intros ?; simplify_eq;
      first [ left; by eauto 10
            | right; eexists; split; [by left|done] ].
Qed.

Lemma homeserver_asked_iff_identifier_unparsable_witness :
  Associate.run Sample.world
    (Associate.resolveHomeserver Sample.parseURL Sample.noHomeserver
       (JsString.str "bob"))
    [JsString.str "https://b.com"]
  = {| Associate.trace :=
         [Associate.console_error Associate.EnterHomeserverUrl; Associate.read false];
       Associate.unread := [];
       Associate.result := inr (JsString.str "https://b.com") |}.
Proof.
  refine (proj1 (proj2 (homeserver_asked_iff_identifier_unparsable Sample.parseURL
                          Sample.world Sample.noHomeserver (JsString.str "bob")
                          [JsString.str "https://b.com"] _))
            (Error "Invalid MXID") (JsString.str "https://b.com") []
            (JsString.str "https://b.com") _ _ _); reflexivity.
Defined.

Lemma onRoomReceipt_length content room p :
  (length (Registry.onRoomReceipt content room p) <= 1)%nat.
Proof.
  rewrite onRoomReceipt_spec.
  destruct (Registry.app p), (Registry.thirdPartyRooms p !! room); cbn; try lia.
  destruct (Registry.acknowledgedBy _ _); cbn; lia.
Qed.

(** X20: only receipts are forwarded, one call each at most.  Through
    any sequence of turns the calls already made on the application stay
    as they are, new calls are added after them, and there are at most
    as many new calls as there are receipt events in the sequence;
    membership events, sync states and the setters forward nothing. *)
Theorem calls_grow_by_at_most_one_per_receipt
    (s : Session.Listening) (turns : list Session.Turn) :
  Session.calls s `prefix_of` Session.calls (Session.listen s turns)
  /\ (length (Session.calls (Session.listen s turns))
      <= length (Session.calls s) + length (List.filter Traces.isReceipt turns))%nat.
Proof.
  induction turns as [|t turns [IHp IHl]] using rev_ind.
  - cbn. split; [done|lia].
  - rewrite listen_snoc, List.filter_app, length_app.
    set (s' := Session.listen s turns) in *.
    destruct t as [state|content room|state|a|r e]; cbn.
    + destruct (Registry.onRoomStateMembers state (Session.puppet s')); cbn;
        split; [done|lia|done|lia].
    + pose proof (onRoomReceipt_length content room (Session.puppet s')) as Hone.
      split; [by etrans; [exact IHp|apply prefix_app_r]|].
      rewrite length_app. lia.
    + destruct (decide _); cbn; split; [done|lia|done|lia].
    + split; [done|lia].
    + split; [done|lia].
Qed.

(** ** The listeners on the plain objects *)

Section PlainFacts.
Import Plain.

Lemma plain_forUserIds_spec me a found readers calls :
  forUserIds me a found readers calls
  = if Registry.acknowledgedIn me readers
    then (Registry.Returned,
          calls ++ [sendReadReceiptAsPuppetToThirdPartyRoomWithId a found])
    else (Registry.Completed, calls).
Proof.
  induction readers as [|[u ts] readers IH]; [done|].
  cbn [forUserIds Registry.acknowledgedIn existsb fst].
  destruct (decide (Some u = me)) as [Hu|Hu].
  - by rewrite bool_decide_eq_true_2.
  - rewrite bool_decide_eq_false_2 by done. exact IH.
Qed.

Lemma plain_forEventIds_spec me a found content calls :
  forEventIds me a found content calls
  = if Registry.acknowledgedBy me content
    then (Registry.Returned,
          calls ++ [sendReadReceiptAsPuppetToThirdPartyRoomWithId a found])
    else (Registry.Completed, calls).
Proof.
  induction content as [|[eventId receipts] content IH]; [done|].
  cbn [forEventIds Registry.acknowledgedBy existsb snd].
  rewrite plain_forUserIds_spec.
  destruct (Registry.acknowledgedIn me (default [] (Registry.m_read receipts)));
    [done|].
  exact IH.
Qed.

Lemma plain_onRoomReceipt_spec rt content room p :
  onRoomReceipt rt content room p
  = match app p with
    | Some a =>
        if hasThirdPartyRoom rt (thirdPartyRooms p) room
           && Registry.acknowledgedBy (id p) content
        then [sendReadReceiptAsPuppetToThirdPartyRoomWithId a
                (thirdPartyRoom rt (thirdPartyRooms p) room)]
        else []
    | None => []
    end.
Proof.
  unfold onRoomReceipt. destruct (app p) as [a|]; [|done].
  destruct (hasThirdPartyRoom rt (thirdPartyRooms p) room); [|done].
  rewrite plain_forEventIds_spec. cbn.
  by destruct (Registry.acknowledgedBy (id p) content).
Qed.

(** On a room identifier that names no inherited property the listener
    on the plain object is the listener on the finite map. *)
Lemma onRoomReceipt_ofRegistry rt content room p :
  inherited rt room = false ->
  onRoomReceipt rt content room (ofRegistry p)
  = ofCall <$> Registry.onRoomReceipt content room p.
Proof.
  intros Hroom. rewrite plain_onRoomReceipt_spec, onRoomReceipt_spec. cbn.
  unfold hasThirdPartyRoom, thirdPartyRoom. rewrite Hroom, orb_false_r.
  destruct (Registry.app p) as [a|]; [|done].
  destruct (Registry.thirdPartyRooms p !! room) as [ext|] eqn:Hext.
  - rewrite bool_decide_eq_true_2 by eauto. cbn.
    by destruct (Registry.acknowledgedBy (Registry.id p) content).
  - rewrite bool_decide_eq_false_2; [done|]. by intros [? ?].
Qed.

Lemma getMatrixRoomMembers_ofRegistry rt p room :
  inherited rt room = false ->
  getMatrixRoomMembers rt (ofRegistry p) room
  = match Registry.getMatrixRoomMembers p room with
    | inl e => inl e
    | inr members => inr (Arr members)
    end.
Proof.
  intros Hroom. unfold getMatrixRoomMembers, Registry.getMatrixRoomMembers. cbn.
  destruct (Registry.matrixRoomMembers p) as [m|]; [|done]. cbn.
  unfold member. cbn. destruct (m !! room); [done|]. by rewrite Hroom.
Qed.

(** A Matrix room identifier begins with "!": it names no property of
    the sample runtime's [Object.prototype]. *)
Lemma room_identifier_not_inherited rest :
  inherited runtime (33 :: rest) = false.
Proof.
  unfold inherited. apply orb_false_iff. split; apply bool_decide_eq_false_2.
  - discriminate.
  - cbn. rewrite !elem_of_cons, elem_of_nil.
    intros H; repeat (destruct H as [H|H]; [discriminate|]); done.
Qed.

End PlainFacts.




(** X3: binding and attaching compose with forwarding.  After
    [saveThirdPartyRoomId(room, ext)], for a room other than
    "__proto__", on a puppet with an application attached, a receipt for
    [room] that the puppet acknowledges is forwarded to that application
    with [ext], whatever was bound to the room or inherited under its
    name before; binding another room changes nothing for [room]; a
    second binding of the same room replaces the first; and a binding at
    "__proto__" is dropped. *)
Theorem binding_decides_forwarded_identifier
    (rt : Plain.Runtime) (content : Registry.ReceiptContent) (room ext : jsstring)
    (a : Registry.App) (p : Plain.Puppet) :
  (room ≠ Plain.proto ->
   Plain.onRoomReceipt rt content room
     (Plain.saveThirdPartyRoomId room ext (Plain.setApp (Some a) p))
   = if Registry.acknowledgedBy (Plain.id p) content
     then [Plain.sendReadReceiptAsPuppetToThirdPartyRoomWithId a (Plain.Str ext)]
     else [])
  /\ (forall room' ext', room' ≠ room ->
        Plain.onRoomReceipt rt content room
          (Plain.saveThirdPartyRoomId room' ext' p)
        = Plain.onRoomReceipt rt content room p)
  /\ (forall ext0,
        Plain.saveThirdPartyRoomId room ext
          (Plain.saveThirdPartyRoomId room ext0 p)
        = Plain.saveThirdPartyRoomId room ext p)
  /\ Plain.saveThirdPartyRoomId Plain.proto ext p = p.
Proof.
  split; [|split; [|split]].
  - intros Hroom. rewrite plain_onRoomReceipt_spec. cbn.
    unfold Plain.hasThirdPartyRoom, Plain.thirdPartyRoom, Plain.setThirdPartyRoom.
    rewrite decide_False by done. rewrite lookup_insert_eq.
    rewrite bool_decide_eq_true_2 by eauto. cbn.
    by destruct (Registry.acknowledgedBy (Plain.id p) content).
  - intros room' ext' Hne. rewrite !plain_onRoomReceipt_spec. cbn.
    unfold Plain.hasThirdPartyRoom, Plain.thirdPartyRoom, Plain.setThirdPartyRoom.
    destruct (decide (room' = Plain.proto)); [done|].
    by rewrite lookup_insert_ne.
  - intros ext0. unfold Plain.saveThirdPartyRoomId, Plain.setThirdPartyRoom.
    cbn [Plain.id Plain.client Plain.thirdPartyRooms Plain.app
           Plain.matrixRoomMembers].
    destruct (decide (room = Plain.proto)); [done|].
    by rewrite insert_insert_eq.
  - unfold Plain.saveThirdPartyRoomId, Plain.setThirdPartyRoom.
    rewrite decide_True by done. by destruct p.
Qed.

Lemma binding_decides_forwarded_identifier_witness :
  Plain.onRoomReceipt Plain.runtime Sample.readTwice (JsString.str "toString")
    (Plain.saveThirdPartyRoomId (JsString.str "toString") Sample.external
       (Plain.setApp (Some 1%nat) Scenario.unbound))
  = [Plain.sendReadReceiptAsPuppetToThirdPartyRoomWithId 1%nat
       (Plain.Str Sample.external)].
Proof.
  apply (proj1 (binding_decides_forwarded_identifier Plain.runtime Sample.readTwice
                  (JsString.str "toString") Sample.external 1%nat Scenario.unbound)).
  vm_compute. discriminate.
Defined.

Section PlainRegistry.
Import Plain.

Lemma plain_listen_snoc rt s turns t :
  listen rt s (turns ++ [t]) = dispatch rt (listen rt s turns) t.
Proof. unfold listen. by rewrite foldl_app. Qed.

Lemma member_stores rt m key a :
  wellFormed m -> stores m key a -> member rt m key = Arr a.
Proof.
  unfold wellFormed, stores, member. intros Hwf.
  destruct (decide (key = proto)) as [->|Hkey].
  - intros ->. by rewrite Hwf.
  - by intros ->.
Qed.

Lemma setMember_wellFormed m key a : wellFormed m -> wellFormed (setMember m key a).
Proof.
  unfold wellFormed, setMember. intros Hwf.
  destruct (decide (key = proto)); cbn; [done|].
  by rewrite lookup_insert_ne.
Qed.

Lemma setMember_stores m key a : stores (setMember m key a) key a.
Proof.
  unfold stores, setMember. destruct (decide (key = proto)); cbn; [done|].
  by rewrite lookup_insert_eq.
Qed.

Lemma setMember_stores_ne m key key' a a' :
  key' ≠ key -> stores m key a -> stores (setMember m key' a') key a.
Proof.
  unfold stores, setMember. intros Hne.
  destruct (decide (key' = proto)) as [->|], (decide (key = proto)) as [->|];
    cbn; try done.
  by rewrite lookup_insert_ne.
Qed.

(** An assignment at another key than ["__proto__"] changes the lookup
    of no other key. *)
Lemma member_setMember_ne rt m key key' a' :
  key' ≠ key -> key' ≠ proto ->
  member rt (setMember m key' a') key = member rt m key.
Proof.
  intros Hne Hproto. unfold member, setMember.
  rewrite decide_False by done. cbn. by rewrite lookup_insert_ne.
Qed.

(** What a turn does to the registry. *)
Lemma plain_dispatch_registry rt s t m :
  matrixRoomMembers (puppet s) = Some m -> wellFormed m ->
  exists m',
    matrixRoomMembers (puppet (dispatch rt s t)) = Some m'
    /\ wellFormed m'
    /\ (forall key a,
          (forall st, t = Session.RoomState_members st -> Registry.roomId st ≠ key) ->
          stores m key a -> stores m' key a)
    /\ (forall key,
          (forall st, t = Session.RoomState_members st ->
             Registry.roomId st ≠ key /\ Registry.roomId st ≠ proto) ->
          member rt m' key = member rt m key)
    /\ ((forall st, t = Session.RoomState_members st -> Registry.roomId st ≠ proto) ->
        prototype m' = prototype m).
Proof.
  intros Hm Hwf. destruct t as [state|content room|state|a|r e]; cbn.
  - unfold onRoomStateMembers. rewrite Hm. cbn. eexists. split; [done|].
    split; [by apply setMember_wellFormed|]. split; [|split].
    + intros key a Hkey. apply setMember_stores_ne. by apply Hkey.
    + intros key Hkey. destruct (Hkey state eq_refl).
      by apply member_setMember_ne.
    + intros Hproto. unfold setMember.
      by rewrite decide_False by (by apply Hproto).
  - eauto 10.
  - destruct (decide _); cbn; eauto 10.
  - eauto 10.
  - eauto 10.
Qed.

Lemma plain_listen_registry rt s turns m :
  matrixRoomMembers (puppet s) = Some m -> wellFormed m ->
  exists m',
    matrixRoomMembers (puppet (listen rt s turns)) = Some m'
    /\ wellFormed m'
    /\ (forall key a,
          (forall st, Session.RoomState_members st ∈ turns ->
             Registry.roomId st ≠ key) ->
          stores m key a -> stores m' key a)
    /\ (forall key,
          (forall st, Session.RoomState_members st ∈ turns ->
             Registry.roomId st ≠ key /\ Registry.roomId st ≠ proto) ->
          member rt m' key = member rt m key)
    /\ ((forall st, Session.RoomState_members st ∈ turns ->
           Registry.roomId st ≠ proto) ->
        prototype m' = prototype m).
Proof.
  intros Hm Hwf. induction turns as [|t turns IH] using rev_ind.
  - exists m. cbn. eauto 10.
  - destruct IH as (m1 & Hm1 & Hwf1 & Hst1 & Hmem1 & Hpr1).
    rewrite plain_listen_snoc.
    destruct (plain_dispatch_registry rt (listen rt s turns) t m1 Hm1 Hwf1)
      as (m2 & Hm2 & Hwf2 & Hst2 & Hmem2 & Hpr2).
    exists m2. split; [done|]. split; [done|]. split; [|split].
    + intros key a Hkey Hstored. apply Hst2.
      * intros st ->. apply Hkey, elem_of_app. right. by left.
      * apply Hst1; [|done]. intros st Hin. apply Hkey, elem_of_app. by left.
    + intros key Hkey. rewrite Hmem2, Hmem1; [done| |].
      * intros st Hin. apply Hkey, elem_of_app. by left.
      * intros st ->. apply Hkey, elem_of_app. right. by left.
    + intros Hproto. rewrite Hpr2, Hpr1; [done| |].
      * intros st Hin. apply Hproto, elem_of_app. by left.
      * intros st ->. apply Hproto, elem_of_app. right. by left.
Qed.

Lemma plain_setup_registry config p p0 :
  startClientSetup config p = (p0, None) ->
  matrixRoomMembers p0 = Some {| own := ∅; prototype := None |}
  /\ thirdPartyRooms p0 = thirdPartyRooms p /\ app p0 = app p
  /\ exists ps bs,
       Config.puppet config = Some ps /\ Config.bridge config = Some bs
       /\ id p0 = Config.id ps
       /\ client p0
          = Some {| Registry.baseUrl := Config.homeserverUrl bs;
                    Registry.userId := Config.id ps;
                    Registry.accessToken := Config.token ps |}.
Proof.
  unfold startClientSetup.
  destruct (Config.puppet config) as [ps|], (Config.bridge config) as [bs|];
    intros H; simplify_eq. cbn. eauto 10.
Qed.

End PlainRegistry.

(** X5: once [startClient] has set the puppet up, [getMatrixRoomMembers]
    and the membership listener never throw, through any sequence of
    client events and setter calls; and what [getMatrixRoomMembers]
    returns is a list for every room whose name the object does not
    inherit, as long as no membership event for a room called
    "__proto__" has come. *)
Theorem getMatrixRoomMembers_never_throws_after_setup
    (rt : Plain.Runtime) (config : Config.t) (p p0 : Plain.Puppet)
    (turns : list Session.Turn) (synced : bool) (calls : list Plain.AppCall) :
  Plain.startClientSetup config p = (p0, None) ->
  let s := Plain.listen rt
             {| Plain.puppet := p0; Plain.isSynced := synced;
                Plain.calls := calls |} turns in
  (forall room, exists v,
     Plain.getMatrixRoomMembers rt (Plain.puppet s) room = inr v)
  /\ (forall state : Registry.RoomState unit, exists p',
        Plain.onRoomStateMembers state (Plain.puppet s) = inr p')
  /\ (forall room,
        Plain.inherited rt room = false ->
        (forall st, Session.RoomState_members st ∈ turns ->
           Registry.roomId st ≠ Plain.proto) ->
        exists members,
          Plain.getMatrixRoomMembers rt (Plain.puppet s) room
          = inr (Plain.Arr members)).
Proof.
  intros Hsetup s.
  destruct (plain_setup_registry _ _ _ Hsetup) as (Hm0 & _).
  destruct (plain_listen_registry rt
              {| Plain.puppet := p0; Plain.isSynced := synced;
                 Plain.calls := calls |} turns _ Hm0 eq_refl)
    as (m & Hm & Hwf & _ & _ & Hproto).
  fold s in Hm. split; [|split].
  - intros room. unfold Plain.getMatrixRoomMembers. rewrite Hm. eauto.
  - intros state. unfold Plain.onRoomStateMembers. rewrite Hm. eauto.
  - intros room Hroom Hturns. unfold Plain.getMatrixRoomMembers. rewrite Hm.
    cbn zeta. unfold Plain.member. rewrite (Hproto Hturns). cbn.
    destruct (Plain.own m !! room) as [a|]; cbn; [eauto|].
    rewrite Hroom. cbn. eauto.
Qed.

Lemma getMatrixRoomMembers_never_throws_after_setup_witness :
  exists members,
    Plain.getMatrixRoomMembers Plain.runtime
      (Plain.puppet
         (Plain.listen Plain.runtime
            {| Plain.puppet := Scenario.plainStarted; Plain.isSynced := false;
               Plain.calls := [] |}
            [Session.RoomState_members Sample.membersXY;
             Session.Room_receipt Sample.readTwice Sample.room]))
      (JsString.str "!unknown:room")
    = inr (Plain.Arr members).
Proof.
  assert (Plain.startClientSetup Sample.fullConfig
            (Plain.ofRegistry Sample.attached)
          = (Scenario.plainStarted, None)) as Hsetup by (vm_compute; reflexivity).
  refine (proj2 (proj2 (getMatrixRoomMembers_never_throws_after_setup Plain.runtime
                          Sample.fullConfig (Plain.ofRegistry Sample.attached)
                          Scenario.plainStarted
                          [Session.RoomState_members Sample.membersXY;
                           Session.Room_receipt Sample.readTwice Sample.room]
                          false [] Hsetup))
            (JsString.str "!unknown:room") _ _).
  - apply room_identifier_not_inherited.
  - intros st Hin.
    apply elem_of_cons in Hin as [Hin|Hin].
    + injection Hin as ->. vm_compute. discriminate.
    + apply list_elem_of_singleton in Hin. discriminate.
Defined.

(** X6: last write wins through any interleaving.  After the setup of
    [startClient] and any sequence of turns, what [getMatrixRoomMembers]
    returns for the room of the last membership event for that room in
    the sequence is the list of the keys of that event, whatever
    receipts, sync states, setter calls and events for other rooms come
    before, between or after, and whatever the room is called; and a
    room keeps what a lookup gave for it through a sequence that has no
    membership event for it nor for a room called "__proto__". *)
Theorem membership_is_last_event_of_room
    (rt : Plain.Runtime) (config : Config.t) (p p0 : Plain.Puppet)
    (pre post : list Session.Turn) (state : Registry.RoomState unit) :
  Plain.startClientSetup config p = (p0, None) ->
  (forall later, Session.RoomState_members later ∈ post ->
     Registry.roomId later ≠ Registry.roomId state) ->
  let s0 := {| Plain.puppet := p0; Plain.isSynced := false; Plain.calls := [] |} in
  Plain.getMatrixRoomMembers rt
    (Plain.puppet
       (Plain.listen rt s0 (pre ++ Session.RoomState_members state :: post)))
    (Registry.roomId state)
  = inr (Plain.Arr (Registry.Object_keys (Registry.members state)))
  /\ (forall room,
        (forall st, Session.RoomState_members st ∈ post ->
           Registry.roomId st ≠ room /\ Registry.roomId st ≠ Plain.proto) ->
        Plain.getMatrixRoomMembers rt
          (Plain.puppet
             (Plain.listen rt s0 (pre ++ Session.RoomState_members state :: post)))
          room
        = Plain.getMatrixRoomMembers rt
            (Plain.puppet
               (Plain.listen rt s0 (pre ++ [Session.RoomState_members state])))
            room).
Proof.
  intros Hsetup Hpost s0.
  destruct (plain_setup_registry _ _ _ Hsetup) as (Hm0 & _).
  destruct (plain_listen_registry rt s0 (pre ++ [Session.RoomState_members state])
              _ Hm0 eq_refl) as (m1 & Hm1 & Hwf1 & _).
  assert (Plain.stores m1 (Registry.roomId state)
            (Registry.Object_keys (Registry.members state))) as Hst1.
  { revert Hm1. rewrite plain_listen_snoc. cbn.
    destruct (plain_listen_registry rt s0 pre _ Hm0 eq_refl) as (m & Hm & _).
    unfold Plain.onRoomStateMembers. rewrite Hm. cbn. intros [= <-].
    apply setMember_stores. }
  assert (Plain.listen rt s0 (pre ++ Session.RoomState_members state :: post)
          = Plain.listen rt
              (Plain.listen rt s0 (pre ++ [Session.RoomState_members state])) post)
    as ->.
  { unfold Plain.listen. by rewrite <- foldl_app, <- app_assoc. }
  destruct (plain_listen_registry rt
              (Plain.listen rt s0 (pre ++ [Session.RoomState_members state]))
              post _ Hm1 Hwf1) as (m2 & Hm2 & Hwf2 & Hst2 & Hmem2 & _).
  split.
  - unfold Plain.getMatrixRoomMembers. rewrite Hm2. cbn zeta.
    by rewrite (member_stores rt m2 _ _ Hwf2 (Hst2 _ _ Hpost Hst1)).
  - intros room Hroom. unfold Plain.getMatrixRoomMembers. rewrite Hm2, Hm1.
    cbn zeta. by rewrite (Hmem2 room Hroom).
Qed.

Lemma membership_is_last_event_of_room_witness :
  Plain.getMatrixRoomMembers Plain.runtime
    (Plain.puppet
       (Plain.listen Plain.runtime
          {| Plain.puppet := Scenario.plainStarted; Plain.isSynced := false;
             Plain.calls := [] |}
          ([Session.RoomState_members Sample.membersXY;
            Session.Room_receipt Sample.readTwice Sample.room]
           ++ Session.RoomState_members Sample.membersX
           :: [Session.sync "PREPARED"; Session.callSetApp None])))
    Sample.room
  = inr (Plain.Arr [JsString.str "@x:b.com"]).
Proof.
  assert (Plain.startClientSetup Sample.fullConfig
            (Plain.ofRegistry Sample.attached)
          = (Scenario.plainStarted, None)) as Hsetup by (vm_compute; reflexivity).
  refine (proj1 (membership_is_last_event_of_room Plain.runtime Sample.fullConfig
                   (Plain.ofRegistry Sample.attached) Scenario.plainStarted
                   [Session.RoomState_members Sample.membersXY;
                    Session.Room_receipt Sample.readTwice Sample.room]
                   [Session.sync "PREPARED"; Session.callSetApp None]
                   Sample.membersX Hsetup _)).
  intros later Hin.
  apply elem_of_cons in Hin as [Hin|Hin]; [discriminate|].
  apply list_elem_of_singleton in Hin. discriminate.
Defined.

(** An event for a room called "__proto__" is stored as the prototype:
    it is what [getMatrixRoomMembers] then returns for that name. *)
Example membership_of_proto_room :
  Plain.getMatrixRoomMembers Plain.runtime
    (Plain.puppet
       (Plain.listen Plain.runtime
          {| Plain.puppet := Scenario.plainStarted; Plain.isSynced := false;
             Plain.calls := [] |}
          [Session.RoomState_members
             {| Registry.roomId := Plain.proto;
                Registry.members := [(JsString.str "@x:b.com", tt)] |}]))
    Plain.proto
  = inr (Plain.Arr [JsString.str "@x:b.com"]).
Proof. vm_compute. reflexivity. Qed.

(** Such an event changes what is found under other names, for which no
    event has come: the length and the indices of the array. *)
Example membership_of_proto_room_reaches_other_names :
  let s0 := {| Plain.puppet := Scenario.plainStarted; Plain.isSynced := false;
               Plain.calls := [] |} in
  let s1 := Plain.listen Plain.runtime s0
              [Session.RoomState_members
                 {| Registry.roomId := Plain.proto;
                    Registry.members := [(JsString.str "@x:b.com", tt)] |}] in
  Plain.getMatrixRoomMembers Plain.runtime (Plain.puppet s0) (JsString.str "length")
    = inr (Plain.Arr [])
  /\ Plain.getMatrixRoomMembers Plain.runtime (Plain.puppet s1) (JsString.str "length")
     = inr (Plain.Num 1)
  /\ Plain.getMatrixRoomMembers Plain.runtime (Plain.puppet s0) (JsString.str "0")
     = inr (Plain.Arr [])
  /\ Plain.getMatrixRoomMembers Plain.runtime (Plain.puppet s1) (JsString.str "0")
     = inr (Plain.Str (JsString.str "@x:b.com")).
Proof. repeat split; vm_compute; reflexivity. Qed.

(** X8: [startClient] starts from an empty registry.  When its setup
    succeeds, [getMatrixRoomMembers] returns the empty list for every
    room whose name the object does not inherit, whatever was recorded
    before (a second [startClient] forgets the membership learnt by the
    first), and for an inherited name it returns what the runtime has
    under it; the bindings and the application are kept; and [this.id]
    and the client's arguments are the config's. *)
Theorem startClient_setup_resets_membership
    (rt : Plain.Runtime) (config : Config.t) (p p0 : Plain.Puppet) :
  Plain.startClientSetup config p = (p0, None) ->
  (forall room, Plain.inherited rt room = false ->
     Plain.getMatrixRoomMembers rt p0 room = inr (Plain.Arr []))
  /\ (forall room, Plain.inherited rt room = true ->
        Plain.getMatrixRoomMembers rt p0 room = inr (Plain.Builtin room))
  /\ Plain.thirdPartyRooms p0 = Plain.thirdPartyRooms p
  /\ Plain.app p0 = Plain.app p
  /\ exists ps bs,
       Config.puppet config = Some ps /\ Config.bridge config = Some bs
       /\ Plain.id p0 = Config.id ps
       /\ Plain.client p0
          = Some {| Registry.baseUrl := Config.homeserverUrl bs;
                    Registry.userId := Config.id ps;
                    Registry.accessToken := Config.token ps |}.
Proof.
  intros Hsetup.
  destruct (plain_setup_registry _ _ _ Hsetup) as (Hm0 & Hrooms & Happ & Hconfig).
  split; [|split; [|done]].
  - intros room Hroom. unfold Plain.getMatrixRoomMembers, Plain.member.
    rewrite Hm0. cbn. rewrite lookup_empty, Hroom. done.
  - intros room Hroom. unfold Plain.getMatrixRoomMembers, Plain.member.
    rewrite Hm0. cbn. rewrite lookup_empty, Hroom. done.
Qed.

Lemma startClient_setup_resets_membership_witness :
  exists p1,
    Plain.onRoomStateMembers Sample.membersXY Scenario.plainStarted = inr p1
    /\ Plain.getMatrixRoomMembers Plain.runtime p1 Sample.room
       = inr (Plain.Arr [JsString.str "@x:b.com"; JsString.str "@y:b.com"])
    /\ Plain.startClientSetup Sample.fullConfig p1 = (Scenario.plainStarted, None)
    /\ Plain.getMatrixRoomMembers Plain.runtime Scenario.plainStarted Sample.room
       = inr (Plain.Arr []).
Proof.
  eexists. split; [reflexivity|]. split; [vm_compute; reflexivity|].
  assert (Plain.startClientSetup Sample.fullConfig
            {| Plain.id := Some Sample.me;
               Plain.client := Plain.client Scenario.plainStarted;
               Plain.thirdPartyRooms := Plain.thirdPartyRooms Scenario.plainStarted;
               Plain.app := Some 1%nat;
               Plain.matrixRoomMembers :=
                 Some (Plain.setMember {| Plain.own := ∅; Plain.prototype := None |}
                         (Registry.roomId Sample.membersXY)
                         (Registry.Object_keys (Registry.members Sample.membersXY))) |}
          = (Scenario.plainStarted, None)) as Hsetup by reflexivity.
  split; [exact Hsetup|].
  apply (proj1 (startClient_setup_resets_membership Plain.runtime _ _ _ Hsetup)).
  apply room_identifier_not_inherited.
Defined.

(** ** The resolved values, on every path *)

Section ResolvedValues.
Import Associate.




End ResolvedValues.



(** On the login path the identifier of the triple is the server's: here
    the homeserver is found without asking for it, the local identifier
    [Sample.me] passes the check of [parseMxid], and the triple carries
    "bob", which does not. *)
Example login_identifier_is_the_servers :
  Associate.result
    (Associate.run Scenario.renaming
       (Associate.resolve Sample.parseURL Scenario.idOnly None)
       [JsString.str "secret"])
  = inr (JsString.str "https://hs.b.com",
         {| Associate.homeserverUrl := JsString.str "https://hs.b.com";
            Associate.id := JsString.str "bob";
            Associate.token := JsString.str "tok" |})
  /\ (Associate.console_error Associate.EnterHomeserverUrl
        ∉ Associate.trace
            (Associate.run Scenario.renaming
               (Associate.resolve Sample.parseURL Scenario.idOnly None)
               [JsString.str "secret"]))
  /\ parseMxid Sample.me
     = inr {| localpart := JsString.str "@a"; domain := JsString.str "b.com" |}
  /\ parseMxid (JsString.str "bob") = inl (Error "Invalid MXID").
Proof.
  split; [vm_compute; reflexivity|].
  split; [decide_ground|].
  split; vm_compute; reflexivity.
Qed.

(** ** associate and the object it changes *)

Section InPlaceRuns.
Import Associate Traces.

Lemma run_attempt {A} w (p : prog A) typed :
  run w (InPlace.attempt p) typed
  = {| trace := trace (run w p typed); unread := unread (run w p typed);
       result := inr (result (run w p typed)) |}.
Proof.
  revert typed. induction p as [a|e|a k IH]; intros typed; cbn; [done|done|].
  destruct (answer w typed a) as [r typed']. by rewrite IH.
Qed.


Lemma inplace_associate_run parseURL w this args typed :
  run w (InPlace.associate parseURL this args) typed
  = let args_ := default {| detectConfigPath := false; registration := None |} args in
    let og := run w (getConfig this) typed in
    match result og with
    | inl e => {| trace := info Banner :: trace og; unread := unread og;
                  result := inr (this, Some e) |}
    | inr (config, this1) =>
        let or := run w (resolve parseURL config (registration args_)) (unread og) in
        match result or with
        | inl e => {| trace := info Banner :: trace og ++ trace or;
                      unread := unread or; result := inr (this1, Some e) |}
        | inr (homeserver, creds) =>
            let op := run w (InPlace.persist config this1 args_ homeserver creds)
                        (unread or) in
            {| trace := info Banner :: trace og ++ trace or ++ trace op;
               unread := unread op; result := result op |}
        end
    end.
Proof.
  unfold InPlace.associate. cbn [run answer]. rewrite run_bind, run_attempt.
  cbn zeta. cbn [trace unread result].
  destruct (result (run w (getConfig this) typed)) as [e|[config this1]].
  { cbn. by rewrite app_nil_r. }
  rewrite run_bind, run_attempt. cbn zeta. cbn [trace unread result].
  destruct (result (run w (resolve parseURL config _) _)) as [e|[hs creds]].
  { cbn. by rewrite app_nil_r. }
  done.
Qed.

End InPlaceRuns.

Section InPlaceFacts.
Import Associate Traces.

Lemma getConfig_result w this typed config this1 :
  result (run w (getConfig this) typed) = inr (config, this1) ->
  path this1 = path this /\ format this1 = format this
  /\ data this1 = Some config
  /\ (data this = Some config
      \/ (data this = None
          /\ configFile w (path this) (format this) = inr config)).
Proof.
  unfold getConfig.
  run_cases; cbn; intros ?; simplify_eq; cbn; auto 10.
Qed.

Lemma inplace_persist_failure w config this args_ homeserver creds typed this' e :
  let o := run w (InPlace.persist config this args_ homeserver creds) typed in
  result o = inr (this', Some e) ->
  this' = {| data := Some (Object_assign config
                             (puppetConfig (id creds) (token creds) homeserver));
             path := path this; format := format this |}
  /\ Forall (fun a => isConfigOutput a = true ->
               exists cp,
                 a = writeFile cp (format this)
                       (Object_assign config
                          (puppetConfig (id creds) (token creds) homeserver))
                 /\ fileSystem w cp = inl e) (trace o)
  /\ ~ Forall (fun a => isConfigOutput a = false) (trace o).
Proof.
  unfold InPlace.persist.
  run_cases; cbn; intros ?; simplify_eq; (split; [done|]);
    (split; [repeat constructor; try done; intros _; eauto|]);
    rewrite <- occurrences_zero; cbn; lia.
Qed.

End InPlaceFacts.

(** X12: what a failed [associate] leaves behind.  When the call ends
    with a thrown value, no config has been shown and no file has been
    written: the one config output the run can contain is the write that
    failed with that value, and then [this.config.data] already holds
    the config that did not reach the file, since line 260 changes the
    object before line 265 writes it.  When the run contains no config
    output (an unreadable config file, a cancelled prompt, a failed
    discovery, a rejected login), [this.config.data] is what it was or,
    if it was absent, the config just read from the file.  The path and
    format are never changed. *)
Theorem failed_associate_leaves_file_not_memory
    (parseURL : jsstring -> option jsstring) (w : Associate.World)
    (this : Associate.ConfigHolder) (args : option Associate.Args)
    (typed : list jsstring) (this' : Associate.ConfigHolder) (e : exn) :
  Associate.result
    (Associate.run w (InPlace.associate parseURL this args) typed)
    = inr (this', Some e) ->
  Associate.path this' = Associate.path this
  /\ Associate.format this' = Associate.format this
  /\ Forall (fun a =>
               Associate.isConfigOutput a = true ->
               exists cp c,
                 a = Associate.writeFile cp (Associate.format this) c
                 /\ Associate.fileSystem w cp = inl e
                 /\ Associate.data this' = Some c)
       (Associate.trace
          (Associate.run w (InPlace.associate parseURL this args) typed))
  /\ (Forall (fun a => Associate.isConfigOutput a = false)
        (Associate.trace
           (Associate.run w (InPlace.associate parseURL this args) typed)) ->
      Associate.data this' = Associate.data this
      \/ (Associate.data this = None
          /\ exists d,
               Associate.configFile w (Associate.path this) (Associate.format this)
                 = inr d
               /\ Associate.data this' = Some d)).
Proof.
  rewrite inplace_associate_run. cbn zeta.
  destruct (getConfig_quiet w this typed) as (Fg & _).
  destruct (getConfig_actions w this typed) as (_ & Hun & _).
  set (og := Associate.run w (Associate.getConfig this) typed) in *.
  assert (Forall (fun a => Associate.isConfigOutput a = false) (Associate.trace og))
    as Fg'.
  { eapply Forall_impl; [exact Fg|]. by intros a (?&?&?&?&?). }
  destruct (Associate.result og) as [e'|[config this1]] eqn:Hog;
    cbn [Associate.trace Associate.result].
  { intros [= <- <-]. split; [done|]. split; [done|]. split; [|by left].
    constructor; [done|]. eapply Forall_impl; [exact Fg'|]. cbn. congruence. }
  destruct (getConfig_result w this typed config this1 Hog)
    as (Hpath & Hformat & Hdata & Hwas).
  rewrite Hun.
  destruct (resolve_actions parseURL w config
              (Associate.registration
                 (default {| Associate.detectConfigPath := false;
                             Associate.registration := None |} args)) typed)
    as (Fr & _).
  set (or := Associate.run w (Associate.resolve parseURL config _) typed) in *.
  assert (Forall (fun a => Associate.isConfigOutput a = false) (Associate.trace or))
    as Fr'.
  { eapply Forall_impl; [exact Fr|]. by intros a (?&?&?). }
  destruct (Associate.result or) as [e'|[homeserver creds]];
    cbn [Associate.trace Associate.result].
  { intros [= <- <-]. split; [done|]. split; [done|]. split.
    - constructor; [done|]. apply Forall_app. split.
      + eapply Forall_impl; [exact Fg'|]. cbn. congruence.
      + eapply Forall_impl; [exact Fr'|]. cbn. congruence.
    - intros _. rewrite Hdata. destruct Hwas as [->|[Hnone Hfile]]; [by left|].
      right. eauto. }
  intros Hfail.
  destruct (inplace_persist_failure w config this1
              (default {| Associate.detectConfigPath := false;
                          Associate.registration := None |} args)
              homeserver creds (Associate.unread or) this' e Hfail)
    as (-> & Fp & Hsome).
  cbn. split; [done|]. split; [done|]. split.
  - constructor; [done|]. rewrite !Forall_app. split; [|split].
    + eapply Forall_impl; [exact Fg'|]. cbn. congruence.
    + eapply Forall_impl; [exact Fr'|]. cbn. congruence.
    + eapply Forall_impl; [exact Fp|]. cbn. intros a Ha Hout.
      destruct (Ha Hout) as (cp & -> & Hcp). rewrite <- Hformat. eauto.
  - intros Hnone. exfalso. apply Hsome.
    apply Forall_cons in Hnone as [_ Hrest].
    rewrite !Forall_app in Hrest. tauto.
Qed.

Lemma failed_associate_leaves_file_not_memory_witness :
  Associate.result
    (Associate.run Scenario.readOnly
       (InPlace.associate Sample.parseURL (Sample.holder Sample.noToken) None)
       [JsString.str "secret"])
  = inr (Scenario.merged, Some (Thrown (JsString.str "EACCES")))
  /\ Forall (fun a =>
               Associate.isConfigOutput a = true ->
               exists cp c,
                 a = Associate.writeFile cp
                       (Associate.format (Sample.holder Sample.noToken)) c
                 /\ Associate.fileSystem Scenario.readOnly cp
                    = inl (Thrown (JsString.str "EACCES"))
                 /\ Associate.data Scenario.merged = Some c)
       (Associate.trace
          (Associate.run Scenario.readOnly
             (InPlace.associate Sample.parseURL (Sample.holder Sample.noToken) None)
             [JsString.str "secret"]))
  /\ Exists (fun a => Associate.isConfigOutput a = true)
       (Associate.trace
          (Associate.run Scenario.readOnly
             (InPlace.associate Sample.parseURL (Sample.holder Sample.noToken) None)
             [JsString.str "secret"]))
  /\ Associate.data Scenario.merged
     ≠ Associate.data (Sample.holder Sample.noToken).
Proof.
  split; [vm_compute; reflexivity|].
  split; [|split].
  - refine (proj1 (proj2 (proj2
              (failed_associate_leaves_file_not_memory Sample.parseURL
                 Scenario.readOnly (Sample.holder Sample.noToken) None
                 [JsString.str "secret"] Scenario.merged
                 (Thrown (JsString.str "EACCES")) _)))).
    vm_compute. reflexivity.
  - vm_compute. repeat first [by apply Exists_cons_hd | apply Exists_cons_tl].
  - decide_ground.
Defined.


Section WrittenConfig.
Import Associate Traces.

Lemma persist_outputs w config this args_ homeserver creds typed :
  Forall (fun a =>
            (forall cp f c, a = writeFile cp f c ->
               c = Object_assign config
                     (puppetConfig (id creds) (token creds) homeserver))
            /\ (forall c, a = console_log c ->
                  c = puppetConfig (id creds) (token creds) homeserver))
    (trace (run w (persist config this args_ homeserver creds) typed)).
Proof.
  unfold persist.
  run_cases; cbn; repeat constructor; intros; simplify_eq; done.
Qed.

End WrittenConfig.

(** X13: what [associate] writes.  Every config it writes to the file is
    the config it started from (the one held, or the one read from the
    file) with its [puppet] section replaced by the resolved id and
    token alone and its [bridge] section replaced by the locally
    resolved homeserver alone: the other top-level keys are kept, the
    other members of the former [bridge] section are not
    ([Object.assign] is shallow), and the homeserver a login may have
    advertised is not used.  A config that is shown instead holds these
    two sections only. *)
Theorem written_config_is_resolved_sections_over_old
    (parseURL : jsstring -> option jsstring) (w : Associate.World)
    (this : Associate.ConfigHolder) (args : option Associate.Args)
    (typed : list jsstring) (a : Associate.action) :
  a ∈ Associate.trace
        (Associate.run w (Associate.associate parseURL this args) typed) ->
  Associate.isConfigOutput a = true ->
  exists config this1 homeserver creds,
    Associate.result (Associate.run w (Associate.getConfig this) typed)
      = inr (config, this1)
    /\ Associate.result
         (Associate.run w
            (Associate.resolve parseURL config
               (Associate.registration
                  (default {| Associate.detectConfigPath := false;
                              Associate.registration := None |} args)))
            typed)
       = inr (homeserver, creds)
    /\ ((exists cp f,
           a = Associate.writeFile cp f
                 {| Config.puppet :=
                      Some {| Config.id := Some (Associate.id creds);
                              Config.token := Some (Associate.token creds) |};
                    Config.bridge :=
                      Some {| Config.homeserverUrl := Some homeserver;
                              Config.bridgeOthers := [] |};
                    Config.others := Config.others config |})
        \/ a = Associate.console_log
                 {| Config.puppet :=
                      Some {| Config.id := Some (Associate.id creds);
                              Config.token := Some (Associate.token creds) |};
                    Config.bridge :=
                      Some {| Config.homeserverUrl := Some homeserver;
                              Config.bridgeOthers := [] |};
                    Config.others := [] |}).
Proof.
  revert a.
  apply (Forall_elem
           (fun a => Associate.isConfigOutput a = true ->
              exists config this1 homeserver creds,
                Associate.result (Associate.run w (Associate.getConfig this) typed)
                  = inr (config, this1)
                /\ Associate.result
                     (Associate.run w
                        (Associate.resolve parseURL config
                           (Associate.registration
                              (default {| Associate.detectConfigPath := false;
                                          Associate.registration := None |} args)))
                        typed)
                   = inr (homeserver, creds)
                /\ ((exists cp f,
                       a = Associate.writeFile cp f
                             (Associate.Object_assign config
                                (Associate.puppetConfig (Associate.id creds)
                                   (Associate.token creds) homeserver)))
                    \/ a = Associate.console_log
                             (Associate.puppetConfig (Associate.id creds)
                                (Associate.token creds) homeserver)))).
  apply associate_actions.
  - done.
  - destruct (getConfig_quiet w this typed) as (Fg & _).
    eapply Forall_impl; [exact Fg|]. intros a (?&?&?&?&?). congruence.
  - intros config this1 Hog. split.
    + destruct (resolve_actions parseURL w config
                  (Associate.registration
                     (default {| Associate.detectConfigPath := false;
                                 Associate.registration := None |} args)) typed)
        as (Fr & _).
      eapply Forall_impl; [exact Fr|]. intros a (?&?&?). congruence.
    + intros homeserver creds typed' Hor.
      eapply Forall_impl; [apply persist_outputs|].
      intros a [Hw Hl] Hout. exists config, this1, homeserver, creds.
      split; [done|]. split; [done|].
      destruct a; try discriminate Hout.
      * right. f_equal. by apply Hl.
      * left. eexists _, _. f_equal. by eapply Hw.
Qed.

Lemma written_config_is_resolved_sections_over_old_witness :
  Associate.writeFile (JsString.str "config.yaml") (Some "yaml"%string)
    {| Config.puppet :=
         Some {| Config.id := Some Sample.me;
                 Config.token := Some (JsString.str "tok") |};
       Config.bridge :=
         Some {| Config.homeserverUrl := Some (JsString.str "https://b.com");
                 Config.bridgeOthers := [] |};
       Config.others := [] |}
    ∈ Associate.trace
        (Associate.run Sample.world
           (Associate.associate Sample.parseURL (Sample.holder Sample.noToken) None)
           [JsString.str "secret"])
  /\ exists config this1 homeserver creds,
       Associate.result
         (Associate.run Sample.world
            (Associate.getConfig (Sample.holder Sample.noToken))
            [JsString.str "secret"])
       = inr (config, this1)
       /\ Associate.result
            (Associate.run Sample.world
               (Associate.resolve Sample.parseURL config
                  (Associate.registration
                     (default {| Associate.detectConfigPath := false;
                                 Associate.registration := None |} None)))
               [JsString.str "secret"])
          = inr (homeserver, creds)
       /\ ((exists cp f,
              Associate.writeFile (JsString.str "config.yaml") (Some "yaml"%string)
                {| Config.puppet :=
                     Some {| Config.id := Some Sample.me;
                             Config.token := Some (JsString.str "tok") |};
                   Config.bridge :=
                     Some {| Config.homeserverUrl :=
                               Some (JsString.str "https://b.com");
                             Config.bridgeOthers := [] |};
                   Config.others := [] |}
              = Associate.writeFile cp f
                  {| Config.puppet :=
                       Some {| Config.id := Some (Associate.id creds);
                               Config.token := Some (Associate.token creds) |};
                     Config.bridge :=
                       Some {| Config.homeserverUrl := Some homeserver;
                               Config.bridgeOthers := [] |};
                     Config.others := Config.others config |})
           \/ Associate.writeFile (JsString.str "config.yaml") (Some "yaml"%string)
                {| Config.puppet :=
                     Some {| Config.id := Some Sample.me;
                             Config.token := Some (JsString.str "tok") |};
                   Config.bridge :=
                     Some {| Config.homeserverUrl :=
                               Some (JsString.str "https://b.com");
                             Config.bridgeOthers := [] |};
                   Config.others := [] |}
              = Associate.console_log
                  {| Config.puppet :=
                       Some {| Config.id := Some (Associate.id creds);
                               Config.token := Some (Associate.token creds) |};
                     Config.bridge :=
                       Some {| Config.homeserverUrl := Some homeserver;
                               Config.bridgeOthers := [] |};
                     Config.others := [] |}).
Proof.
  assert (Associate.writeFile (JsString.str "config.yaml") (Some "yaml"%string)
            {| Config.puppet :=
                 Some {| Config.id := Some Sample.me;
                         Config.token := Some (JsString.str "tok") |};
               Config.bridge :=
                 Some {| Config.homeserverUrl := Some (JsString.str "https://b.com");
                         Config.bridgeOthers := [] |};
               Config.others := [] |}
          ∈ Associate.trace
              (Associate.run Sample.world
                 (Associate.associate Sample.parseURL
                    (Sample.holder Sample.noToken) None)
                 [JsString.str "secret"])) as Hin.
  { decide_ground. }
  split; [exact Hin|].
  exact (written_config_is_resolved_sections_over_old Sample.parseURL Sample.world
           (Sample.holder Sample.noToken) None [JsString.str "secret"] _ Hin
           eq_refl).
Defined.
